(** * html-eslint: node utilities, require-closing-tags and element-newline

    A shallow embedding of
    - [lib/rules/utils/node.js] (range and line utilities),
    - [lib/rules/require-closing-tags.js] (both listings of the rule), and
    - the element-newline rule ([checkSiblings], [shouldBeNewline]),
    followed by the properties established about them.

    Conventions.  JavaScript numbers that hold offsets, lines and columns are
    integers and are modelled by [Z].  Tag names and text values are modelled
    by [string]; one [ascii] stands for one UTF-16 code unit below 256, so
    that [trim], [\s] and [toLowerCase] are exact on that range.  The source
    text handed to [codeToLines] is a list of arbitrary code units ([N]),
    because its pattern names U+2028 and U+2029. *)

From Stdlib Require Import List String Ascii ZArith NArith Bool Lia.
Import ListNotations.

Local Open Scope Z_scope.
Local Open Scope list_scope.

(* ================================================================== *)
(** ** JavaScript string primitives used by the sources *)
(* ================================================================== *)

Module JS.

Definition LF : ascii := ascii_of_nat 10.
Definition CR : ascii := ascii_of_nat 13.

(** [s.length] *)
Definition length (s : string) : Z := Z.of_nat (String.length s).

(** [s.split(sep)] for a separator of one code unit.  The empty string
    splits into one empty piece. *)
Fixpoint split (sep : ascii) (s : string) : list string :=
  match s with
  | EmptyString => [EmptyString]
  | String c rest =>
      if Ascii.eqb c sep then EmptyString :: split sep rest
      else match split sep rest with
           | piece :: pieces => String c piece :: pieces
           | [] => [String c EmptyString]
           end
  end.

(** [pieces.join(sep)] *)
Fixpoint join (sep : string) (pieces : list string) : string :=
  match pieces with
  | [] => EmptyString
  | piece :: rest =>
      match rest with
      | [] => piece
      | _ :: _ => (piece ++ sep ++ join sep rest)%string
      end
  end.

(** White space and line terminators below U+0100: TAB, LF, VT, FF, CR,
    SP and NBSP.  This is what [trim] strips and what [\s] matches. *)
Definition isWhiteSpace (c : ascii) : bool :=
  existsb (Nat.eqb (nat_of_ascii c)) [9; 10; 11; 12; 13; 32; 160]%nat.

Fixpoint trimStart (s : string) : string :=
  match s with
  | EmptyString => EmptyString
  | String c rest => if isWhiteSpace c then trimStart rest else s
  end.

Definition reverse (s : string) : string :=
  string_of_list_ascii (rev (list_ascii_of_string s)).

(** [s.trim()] *)
Definition trim (s : string) : string :=
  reverse (trimStart (reverse (trimStart s))).

(** Lower-casing of one code unit below U+0100: A-Z, and the Latin-1
    capitals U+00C0-U+00DE except the multiplication sign U+00D7. *)
Definition lowerChar (c : ascii) : ascii :=
  let n := nat_of_ascii c in
  if ((65 <=? n) && (n <=? 90))%nat then ascii_of_nat (n + 32)
  else if ((192 <=? n) && (n <=? 222) && negb (n =? 215))%nat
       then ascii_of_nat (n + 32)
       else c.

(** [s.toLowerCase()] *)
Fixpoint toLowerCase (s : string) : string :=
  match s with
  | EmptyString => EmptyString
  | String c rest => String (lowerChar c) (toLowerCase rest)
  end.

(** [array.includes(x)] on an array of strings *)
Definition includes (l : list string) (x : string) : bool :=
  existsb (String.eqb x) l.

End JS.

(* ================================================================== *)
(** ** Regular expressions

    The rules only ask whether a pattern matches ([test], [match] used as
    a truth value, [some]).  A compiled pattern is a regular expression
    over code units, decided with Brzozowski derivatives. *)
(* ================================================================== *)

Module RegExp.

Inductive regex : Type :=
| Void : regex                          (* matches nothing *)
| Eps : regex                           (* the empty pattern *)
| Chr : ascii -> regex                  (* one literal code unit *)
| Class : (ascii -> bool) -> regex      (* a character class *)
| Cat : regex -> regex -> regex
| Alt : regex -> regex -> regex
| Star : regex -> regex.

Definition Plus (r : regex) : regex := Cat r (Star r).

Fixpoint nullable (r : regex) : bool :=
  match r with
  | Void => false
  | Eps => true
  | Chr _ => false
  | Class _ => false
  | Cat a b => nullable a && nullable b
  | Alt a b => nullable a || nullable b
  | Star _ => true
  end.

Fixpoint deriv (c : ascii) (r : regex) : regex :=
  match r with
  | Void => Void
  | Eps => Void
  | Chr d => if Ascii.eqb c d then Eps else Void
  | Class p => if p c then Eps else Void
  | Cat a b =>
      if nullable a then Alt (Cat (deriv c a) b) (deriv c b)
      else Cat (deriv c a) b
  | Alt a b => Alt (deriv c a) (deriv c b)
  | Star a => Cat (deriv c a) (Star a)
  end.

(** Some prefix of [s] matches [r]: the pattern [^r]. *)
Fixpoint test_start (r : regex) (s : string) : bool :=
  nullable r ||
  match s with
  | EmptyString => false
  | String c rest => test_start (deriv c r) rest
  end.

(** The whole of [s] matches [r]: the pattern [^r$]. *)
Fixpoint test_whole (r : regex) (s : string) : bool :=
  match s with
  | EmptyString => nullable r
  | String c rest => test_whole (deriv c r) rest
  end.

(** [r] matches somewhere in [s]: the unanchored pattern [r]. *)
Fixpoint test (r : regex) (s : string) : bool :=
  test_start r s ||
  match s with
  | EmptyString => false
  | String _ rest => test r rest
  end.

(** Some suffix of [s] matches [r]: the pattern [r$]. *)
Fixpoint test_end (r : regex) (s : string) : bool :=
  test_whole r s ||
  match s with
  | EmptyString => false
  | String _ rest => test_end r rest
  end.

End RegExp.

(* ================================================================== *)
(** ** The tree handed over by the parser *)
(* ================================================================== *)

(** A source range [[start, end)]. *)
Definition Range : Type := (Z * Z)%type.

Record Position : Type := { line : Z; column : Z }.

Record SourceLocation : Type := { loc_start : Position; loc_end : Position }.

(** A template span of a Text or CommentContent. *)
Record Template : Type := { isTemplate : bool; template_range : Range }.

(** Text and CommentContent: a raw [value], the [templates] (which may be
    absent), [range] and [loc]. *)
Record Content : Type := {
  value : string;
  templates : option (list Template);
  range : Range;
  loc : SourceLocation
}.

(** The synthetic Line node built by [splitToLineNodes]. *)
Record Line : Type := {
  line_value : string;
  line_range : Range;
  line_loc : SourceLocation;
  skipIndentCheck : bool
}.

(* ================================================================== *)
(** ** lib/rules/utils/node.js *)
(* ================================================================== *)

Module NodeUtils.

Definition isRangesOverlap (rangeA rangeB : Range) : bool :=
  (fst rangeA <? snd rangeB) && (fst rangeB <? snd rangeA).

Definition isOverlapWithTemplates (tpls : list Template) (r : Range) : bool :=
  existsb (fun template => isRangesOverlap (template_range template) r)
          (filter isTemplate tpls).

(** The closure [shouldSkipIndentCheck] of [splitToLineNodes]. *)
Definition shouldSkipIndentCheck (tpls : list Template) (r : Range) : bool :=
  existsb (fun template =>
             isTemplate template && isRangesOverlap (template_range template) r)
          tpls.

(** The body of the [forEach] of [splitToLineNodes]; [start] and [line]
    are the two mutable locals, [index] the callback's second argument. *)
Fixpoint forEachLine (startCol : Z) (tpls : list Template)
         (values : list string) (index : nat) (start line : Z) : list Line :=
  match values with
  | [] => []
  | v :: rest =>
      let columnStart := if Nat.eqb index 0 then startCol else 0 in
      let r : Range := (start, start + JS.length v) in
      let lc := {| loc_start := {| line := line; column := columnStart |};
                   loc_end := {| line := line;
                                 column := columnStart + JS.length v |} |} in
      let lineNode := {| line_value := v;
                         line_range := r;
                         line_loc := lc;
                         skipIndentCheck := shouldSkipIndentCheck tpls r |} in
      lineNode
        :: forEachLine startCol tpls rest (S index)
                       (start + JS.length v + 1) (line + 1)
  end.

Definition splitToLineNodes (node : Content) : list Line :=
  let start := fst (range node) in
  let line0 := line (loc_start (loc node)) in
  let startCol := column (loc_start (loc node)) in
  let tpls := match templates node with Some t => t | None => [] end in
  forEachLine startCol tpls (JS.split JS.LF (value node)) 0 start line0.

(** Code units named by [lineBreakPattern]. *)
Definition cuLF : N := 10%N.
Definition cuCR : N := 13%N.
Definition cuLS : N := 8232%N.   (* U+2028 *)
Definition cuPS : N := 8233%N.   (* U+2029 *)

(** The character class of the pattern: CR, LF, U+2028, U+2029. *)
Definition isLineBreakUnit (c : N) : bool :=
  (c =? cuCR)%N || (c =? cuLF)%N || (c =? cuLS)%N || (c =? cuPS)%N.

(** [source.split(lineEndingPattern)] with
    [lineEndingPattern = /\r\n|[\r\n\u2028\u2029]/gu].  Every match is one
    or two code units long; the first alternative takes CR LF as a single
    match; the pieces are the stretches between successive matches. *)
Fixpoint codeToLines (source : list N) : list (list N) :=
  match source with
  | [] => [[]]
  | c :: rest =>
      if isLineBreakUnit c then
        match rest with
        | c' :: rest' =>
            if (c =? cuCR)%N && (c' =? cuLF)%N
            then [] :: codeToLines rest'
            else [] :: codeToLines rest
        | [] => [] :: codeToLines rest
        end
      else match codeToLines rest with
           | piece :: pieces => (c :: piece) :: pieces
           | [] => [[c]]
           end
  end.

End NodeUtils.

(* ================================================================== *)
(** ** Tags and the other nodes of a document *)
(* ================================================================== *)

(** The token nodes [openEnd] and [close] of a tag. *)
Record Token : Type := {
  token_value : string;
  token_range : Range;
  token_loc : SourceLocation
}.

(** The fields of a Tag other than its children.  [close] is absent when
    no closing tag was written. *)
Record TagInfo : Type := {
  name : string;
  selfClosing : bool;
  openEnd : Token;
  close : option Token;
  tag_range : Range;
  tag_loc : SourceLocation
}.

#[local] Set Warnings "-register-all".

Inductive Node : Type :=
| Tag : TagInfo -> list Node -> Node          (* fields, children *)
| Text : Content -> Node
| Comment : Content -> Range -> SourceLocation -> Node   (* node.value *)
| Doctype : Range -> SourceLocation -> Node
| ScriptTag : Range -> SourceLocation -> Node
| StyleTag : Range -> SourceLocation -> Node.

(** A document is the list of the children of its Document node. *)
Definition Document : Type := list Node.

Definition nodeType (n : Node) : string :=
  match n with
  | Tag _ _ => "Tag"
  | Text _ => "Text"
  | Comment _ _ _ => "Comment"
  | Doctype _ _ => "Doctype"
  | ScriptTag _ _ => "ScriptTag"
  | StyleTag _ _ => "StyleTag"
  end.

Definition nodeRange (n : Node) : Range :=
  match n with
  | Tag t _ => tag_range t
  | Text c => range c
  | Comment _ r _ | Doctype r _ | ScriptTag r _ | StyleTag r _ => r
  end.

Definition nodeLoc (n : Node) : SourceLocation :=
  match n with
  | Tag t _ => tag_loc t
  | Text c => loc c
  | Comment _ _ l | Doctype _ l | ScriptTag _ l | StyleTag _ l => l
  end.

(** Positions in a document: the child indices from the Document node down
    to the node.  A position is what identifies a node object. *)
Definition Path : Type := list nat.

(** The node reached from [n] along the relative path [r]. *)
Fixpoint descend (r : Path) (n : Node) : option Node :=
  match r with
  | [] => Some n
  | i :: r' =>
      match n with
      | Tag _ cs =>
          match nth_error cs i with
          | Some c => descend r' c
          | None => None
          end
      | _ => None
      end
  end.

(** The node of [doc] at position [p]. *)
Definition nodeAt (doc : Document) (p : Path) : option Node :=
  match p with
  | [] => None
  | i :: r =>
      match nth_error doc i with
      | Some n => descend r n
      | None => None
      end
  end.

(* ================================================================== *)
(** ** Diagnostics and fixes *)
(* ================================================================== *)

(** Modelled from the spec: the report and fixer primitives are ESLint's and
    are not among the sources.  The edit vocabulary is the one of the
    specification (replace / insert before / insert after / remove, over
    ranges).  [fixer.remove(node)] and [fixer.replaceText(node, text)] read
    [node.range], so handing them an absent node raises a TypeError. *)
Inductive Edit : Type :=
| ReplaceRange : Range -> string -> Edit
| InsertBefore : Range -> string -> Edit
| InsertAfter : Range -> string -> Edit
| RemoveRange : Range -> Edit.

(** The outcome of running a piece of JavaScript that may throw. *)
Inductive Outcome (A : Type) : Type :=
| Return : A -> Outcome A
| Throw : string -> Outcome A.

Arguments Return {A} _.
Arguments Throw {A} _.

Definition bind {A B : Type} (m : Outcome A) (k : A -> Outcome B) : Outcome B :=
  match m with
  | Return a => k a
  | Throw e => Throw e
  end.

Notation "x <- m ;; k" := (bind m (fun x => k))
  (at level 61, m at next level, right associativity).

Module Fixer.

Definition replaceText (target : Token) (text : string) : Outcome Edit :=
  Return (ReplaceRange (token_range target) text).

Definition remove (target : option Token) : Outcome Edit :=
  match target with
  | Some t => Return (RemoveRange (token_range t))
  | None => Throw "TypeError"
  end.

Definition insertTextAfter (r : Range) (text : string) : Outcome Edit :=
  Return (InsertAfter r text).

Definition insertTextBefore (r : Range) (text : string) : Outcome Edit :=
  Return (InsertBefore r text).

End Fixer.

(** What a fix callback returns: [null], or the edits. *)
Definition FixResult : Type := option (list Edit).

(** One call of [context.report].  [report_range] and [report_loc] are those
    of the descriptor's [node]; [report_tag] is [data.tag]; [report_fix] is
    [None] when the descriptor has no [fix] callback and otherwise the
    outcome of calling it.  A callback that throws is recorded as such and
    the walk below carries on, so that every diagnostic of a document can
    be stated; in ESLint the exception ends the run. *)
Record Report : Type := {
  report_range : Range;
  report_loc : SourceLocation;
  report_tag : string;
  messageId : string;
  report_fix : option (Outcome FixResult)
}.

(* ================================================================== *)
(** ** The traversal engine *)
(* ================================================================== *)

(** Modelled from the spec: the depth-first walk is ESLint's and is not among
    the sources.  For each node the enter callback registered for its type
    runs before the children are visited and the exit callback after.  The
    rules below register callbacks for Tag nodes only.  Next to the final
    state the walk returns the list of enter events: the position of each
    Tag and the state in which its enter callback was called. *)
Record Visitor (St : Type) : Type := {
  onTag : Path -> TagInfo -> list Node -> St -> St;
  onTagExit : Path -> TagInfo -> list Node -> St -> St
}.

Arguments onTag {St} _ _ _ _ _.
Arguments onTagExit {St} _ _ _ _ _.

Section Traversal.

Context {St : Type} (v : Visitor St).

Fixpoint traverse (p : Path) (n : Node) (s : St) : St * list (Path * St) :=
  match n with
  | Tag t cs =>
      let s1 := onTag v p t cs s in
      let '(s2, events) :=
        (fix each (l : list Node) (i : nat) (s : St) : St * list (Path * St) :=
           match l with
           | [] => (s, [])
           | c :: rest =>
               let '(s', ev1) := traverse (p ++ [i]) c s in
               let '(s'', ev2) := each rest (S i) s' in
               (s'', ev1 ++ ev2)
           end) cs 0%nat s1 in
      (onTagExit v p t cs s2, (p, s) :: events)
  | _ => (s, [])
  end.

(** The children of the node at [p], from index [i] on. *)
Fixpoint traverseChildren (p : Path) (l : list Node) (i : nat) (s : St)
  : St * list (Path * St) :=
  match l with
  | [] => (s, [])
  | c :: rest =>
      let '(s', ev1) := traverse (p ++ [i]) c s in
      let '(s'', ev2) := traverseChildren p rest (S i) s' in
      (s'', ev1 ++ ev2)
  end.

Definition traverseDocument (doc : Document) (s : St) : St * list (Path * St) :=
  traverseChildren [] doc 0%nat s.

End Traversal.

(* ================================================================== *)
(** ** lib/rules/require-closing-tags.js (first listing) *)
(* ================================================================== *)

Module RequireClosingTags.

Definition MISSING : string := "missing".
Definition MISSING_SELF : string := "missingSelf".
Definition UNEXPECTED : string := "unexpected".

Inductive SelfClosing : Type := always | never.

(** The options object of the schema; every property is optional.  The
    entries of [customPatterns] stand for the compiled [new RegExp(i)]. *)
Record Options : Type := {
  opt_selfClosing : option SelfClosing;
  opt_allowSelfClosingCustom : option bool;
  opt_customPatterns : option (list RegExp.regex)
}.

(** The state of one run of the rule: the array [foreignContext] (pushed
    at its end) and the diagnostics reported so far. *)
Record State : Type := {
  foreignContext : list string;
  reports : list Report
}.

Definition initial : State := {| foreignContext := []; reports := [] |}.

(** [array[array.length - 1]], which is [undefined] on an empty array. *)
Definition top (stack : list string) : option string :=
  nth_error stack (List.length stack - 1).

Section Create.

(** [VOID_ELEMENTS] comes from [../constants], which is not among the
    sources. *)
Variable VOID_ELEMENTS : list string.

(** [context.options] *)
Variable options : list Options.

Definition preferSelfClose : bool :=
  match options with
  | o :: _ =>
      match opt_selfClosing o with
      | Some always => true
      | _ => false
      end
  | [] => false
  end.

Definition allowSelfClosingCustom : bool :=
  match options with
  | o :: _ =>
      match opt_allowSelfClosingCustom o with
      | Some true => true
      | _ => false
      end
  | [] => false
  end.

Definition customPatterns : list RegExp.regex :=
  match options with
  | o :: _ =>
      match opt_customPatterns o with
      | Some l => l
      | None => [RegExp.Chr "-"%char]
      end
  | [] => [RegExp.Chr "-"%char]
  end.

Definition checkClosingTag (node : TagInfo) : list Report :=
  match close node with
  | None =>
      [ {| report_range := tag_range node;
           report_loc := tag_loc node;
           report_tag := name node;
           messageId := MISSING;
           report_fix := None |} ]
  | Some _ => []
  end.

Definition checkVoidElement (node : TagInfo) (shouldSelfClose fixable : bool)
  : list Report :=
  let hasSelfClose := String.eqb (token_value (openEnd node)) "/>" in
  (if shouldSelfClose && negb hasSelfClose then
     [ {| report_range := token_range (openEnd node);
          report_loc := token_loc (openEnd node);
          report_tag := name node;
          messageId := MISSING_SELF;
          report_fix := Some (if negb fixable then Return None
                       else e1 <- Fixer.replaceText (openEnd node) " />" ;;
                            e2 <- Fixer.remove (close node) ;;
                            Return (Some [e1; e2])) |} ]
   else [])
  ++
  (if negb shouldSelfClose && hasSelfClose then
     [ {| report_range := token_range (openEnd node);
          report_loc := token_loc (openEnd node);
          report_tag := name node;
          messageId := UNEXPECTED;
          report_fix := Some (if negb fixable then Return None
                       else e <- Fixer.replaceText (openEnd node) ">" ;;
                            Return (Some [e])) |} ]
   else []).

Definition isVoidElement (node : TagInfo) : bool :=
  JS.includes VOID_ELEMENTS (name node).

Definition isCustomElement (node : TagInfo) : bool :=
  existsb (fun i => RegExp.test i (name node)) customPatterns.

Definition canSelfClose (node : TagInfo) (children : list Node)
           (stack : list string) : bool :=
  isVoidElement node
  || (0 <? Z.of_nat (List.length stack))
  || (isCustomElement node && allowSelfClosingCustom
      && negb (0 <? Z.of_nat (List.length children))).

(** The diagnostics of one call of the [Tag] callback. *)
Definition checkTag (node : TagInfo) (children : list Node)
           (stack : list string) : list Report :=
  let can := canSelfClose node children stack in
  if selfClosing node || can
  then checkVoidElement node (preferSelfClose && can) can
  else if negb (String.eqb (token_value (openEnd node)) "/>")
       then checkClosingTag node
       else [].

Definition Tag_enter (node : TagInfo) (children : list Node) (st : State)
  : State :=
  {| reports := reports st ++ checkTag node children (foreignContext st);
     foreignContext :=
       if JS.includes ["svg"; "math"]%string (name node)
       then foreignContext st ++ [name node]
       else foreignContext st |}.

Definition Tag_exit (node : TagInfo) (st : State) : State :=
  match top (foreignContext st) with
  | Some entry =>
      if String.eqb (name node) entry
      then {| reports := reports st;
              foreignContext := removelast (foreignContext st) |}
      else st
  | None => st
  end.

Definition visitor : Visitor State :=
  {| onTag := fun _ node children st => Tag_enter node children st;
     onTagExit := fun _ node _ st => Tag_exit node st |}.

(** One run of the rule over a document. *)
Definition run (doc : Document) : State * list (Path * State) :=
  traverseDocument visitor doc initial.

End Create.

End RequireClosingTags.

(* ================================================================== *)
(** ** lib/rules/require-closing-tags.js (second listing)

    The listing without [customPatterns] and without the foreign context:
    a hyphen in the name is tested directly, and the rule keeps no state. *)
(* ================================================================== *)

Module RequireClosingTagsHyphen.

Import RequireClosingTags.

(** The options object of this listing's schema. *)
Record Options : Type := {
  opt_selfClosing : option SelfClosing;
  opt_allowSelfClosingCustom : option bool
}.

Section Create.

Variable VOID_ELEMENTS : list string.
Variable options : list Options.

Definition preferSelfClose : bool :=
  match options with
  | o :: _ =>
      match opt_selfClosing o with
      | Some always => true
      | _ => false
      end
  | [] => false
  end.

Definition allowSelfClosingCustom : bool :=
  match options with
  | o :: _ =>
      match opt_allowSelfClosingCustom o with
      | Some true => true
      | _ => false
      end
  | [] => false
  end.

Definition checkClosingTag (node : TagInfo) : list Report :=
  match close node with
  | None =>
      [ {| report_range := tag_range node;
           report_loc := tag_loc node;
           report_tag := name node;
           messageId := MISSING;
           report_fix := None |} ]
  | Some _ => []
  end.

Definition checkVoidElement (node : TagInfo) (shouldSelfClose fixable : bool)
  : list Report :=
  let hasSelfClose := String.eqb (token_value (openEnd node)) "/>" in
  (if shouldSelfClose && negb hasSelfClose then
     [ {| report_range := token_range (openEnd node);
          report_loc := token_loc (openEnd node);
          report_tag := name node;
          messageId := MISSING_SELF;
          report_fix := Some (if negb fixable then Return None
                       else e <- Fixer.replaceText (openEnd node) " />" ;;
                            Return (Some [e])) |} ]
   else [])
  ++
  (if negb shouldSelfClose && hasSelfClose then
     [ {| report_range := token_range (openEnd node);
          report_loc := token_loc (openEnd node);
          report_tag := name node;
          messageId := UNEXPECTED;
          report_fix := Some (if negb fixable then Return None
                       else e <- Fixer.replaceText (openEnd node) ">" ;;
                            Return (Some [e])) |} ]
   else []).

(** [name.indexOf("-") !== -1] *)
Definition hasHyphen (s : string) : bool :=
  existsb (Ascii.eqb "-"%char) (list_ascii_of_string s).

(** The diagnostics of one call of the [Tag] callback. *)
Definition checkTag (node : TagInfo) : list Report :=
  let isVoidElement := JS.includes VOID_ELEMENTS (name node) in
  let canSelfClose := isVoidElement in
  if selfClosing node && allowSelfClosingCustom && hasHyphen (name node)
  then checkVoidElement node true false
  else if selfClosing node || isVoidElement
       then checkVoidElement node (preferSelfClose && canSelfClose)
                             canSelfClose
       else if negb (String.eqb (token_value (openEnd node)) "/>")
            then checkClosingTag node
            else [].

End Create.

End RequireClosingTagsHyphen.

(* ================================================================== *)
(** ** The element-newline rule (second listing of utils/node.js) *)
(* ================================================================== *)

Module ElementNewline.

Definition EXPECT_NEW_LINE_AFTER : string := "expectAfter".
Definition EXPECT_NEW_LINE_AFTER_OPEN : string := "expectAfterOpen".
Definition EXPECT_NEW_LINE_BEFORE : string := "expectBefore".
Definition EXPECT_NEW_LINE_BEFORE_CLOSE : string := "expectBeforeClose".

(** The template literal of [PRESETS.$inline], trimmed and split. *)
Definition inlinePreset : list string :=
  JS.split JS.LF (JS.trim "
a
abbr
b
bdi
bdo
br
cite
code
data
dfn
em
i
kbd
mark
q
rp
rt
ruby
s
samp
small
span
strong
sub
sup
time
u
var
wbr
  ").

(** The own keys of [PRESETS]. *)
Definition PRESETS : list (string * list string) :=
  [("$inline"%string, inlinePreset)].

Fixpoint lookupPreset (key : string) (table : list (string * list string))
  : option (list string) :=
  match table with
  | [] => None
  | (k, preset) :: rest =>
      if String.eqb key k then Some preset else lookupPreset key rest
  end.

Fixpoint optionsOrPresets (opts : list string) : list string :=
  match opts with
  | [] => []
  | opt :: rest =>
      match lookupPreset opt PRESETS with
      | Some preset => preset ++ optionsOrPresets rest
      | None => opt :: optionsOrPresets rest
      end
  end.

Record Options : Type := {
  opt_inline : option (list string);
  opt_skip : option (list string)
}.

Record NodeMeta : Type := {
  childFirst : option Node;
  childLast : option Node;
  meta_shouldBeNewline : bool
}.

(** The patterns [/[\n\r]+/], [/^(\n|\r\n)/] and [/(\n|\r\n)\s*$/]. *)
Definition lineBreaks : RegExp.regex :=
  RegExp.Plus (RegExp.Alt (RegExp.Chr JS.LF) (RegExp.Chr JS.CR)).

Definition newline : RegExp.regex :=
  RegExp.Alt (RegExp.Chr JS.LF)
             (RegExp.Cat (RegExp.Chr JS.CR) (RegExp.Chr JS.LF)).

Definition newlineThenSpace : RegExp.regex :=
  RegExp.Cat newline (RegExp.Star (RegExp.Class JS.isWhiteSpace)).

Section Create.

(** [context.options] *)
Variable options : list Options.

Definition skipTags : list string :=
  match options with
  | o :: _ => match opt_skip o with Some l => l | None => [] end
  | [] => []
  end.

Definition inlineTags : list string :=
  optionsOrPresets
    match options with
    | o :: _ => match opt_inline o with Some l => l | None => [] end
    | [] => []
    end.

Definition isEmptyText (node : Node) : bool :=
  match node with
  | Text c => JS.length (JS.trim (value c)) =? 0
  | _ => false
  end.

Definition isNotNewlineEnd (node : Node) : bool :=
  match node with
  | Text c => negb (RegExp.test_end newlineThenSpace (value c))
  | _ => true
  end.

Definition isNotNewlineStart (node : Node) : bool :=
  match node with
  | Text c => negb (RegExp.test_start newline (value c))
  | _ => true
  end.

Definition label (node : Node) (isClose : bool) : string :=
  match node with
  | Tag t _ =>
      if isClose then ("</" ++ name t ++ ">")%string
      else ("<" ++ name t ++ ">")%string
  | _ => ("<" ++ nodeType node ++ ">")%string
  end.

Definition shouldBeNewline (node : Node) : bool :=
  match node with
  | Comment c _ _ => RegExp.test lineBreaks (JS.trim (value c))
  | Tag t _ => negb (JS.includes inlineTags (JS.toLowerCase (name t)))
  | Text c => RegExp.test lineBreaks (JS.trim (value c))
  | _ => true
  end.

Definition report (anchor : Node) (id tag : string) (edit : Outcome Edit)
  : Report :=
  {| report_range := nodeRange anchor;
     report_loc := nodeLoc anchor;
     report_tag := tag;
     messageId := id;
     report_fix := Some (e <- edit ;; Return (Some [e])) |}.

(** The two checks of a tag against the first and the last of its
    children with content (the block guarded by
    [nodeShouldBeNewline && nodeChildShouldBeNewline && ...]). *)
Definition openCloseReports (node : Node) (t : TagInfo)
           (nodeShouldBeNewline : bool) (nodeMeta : NodeMeta) : list Report :=
  if nodeShouldBeNewline && meta_shouldBeNewline nodeMeta then
    match childFirst nodeMeta, childLast nodeMeta with
    | Some first, Some last =>
        (if line (loc_end (token_loc (openEnd t)))
            =? line (loc_start (nodeLoc first))
         then if isNotNewlineStart first
              then [report node EXPECT_NEW_LINE_AFTER_OPEN (label node false)
                      (Fixer.insertTextAfter (token_range (openEnd t))
                                             (String JS.LF EmptyString))]
              else []
         else [])
        ++
        match close t with
        | Some closeTag =>
            if line (loc_end (nodeLoc last))
               =? line (loc_start (token_loc closeTag))
            then if isNotNewlineEnd last
                 then [report node EXPECT_NEW_LINE_BEFORE_CLOSE
                         (label node true)
                         (Fixer.insertTextBefore (token_range closeTag)
                                                 (String JS.LF EmptyString))]
                 else []
            else []
        | None => []
        end
    | _, _ => []
    end
  else [].

(** The check of a node against the next node with content (the block
    guarded by [nodeNext && node.loc.end.line === nodeNext.loc.start.line]). *)
Definition pairReports (node nodeNext : Node) : list Report :=
  if line (loc_end (nodeLoc node)) =? line (loc_start (nodeLoc nodeNext))
  then
    if shouldBeNewline node then
      if isNotNewlineStart nodeNext
      then [report nodeNext EXPECT_NEW_LINE_AFTER (label node false)
              (Fixer.insertTextAfter (nodeRange node)
                                     (String JS.LF EmptyString))]
      else []
    else if shouldBeNewline nodeNext then
      if isNotNewlineEnd node
      then [report nodeNext EXPECT_NEW_LINE_BEFORE (label nodeNext false)
              (Fixer.insertTextBefore (nodeRange nodeNext)
                                      (String JS.LF EmptyString))]
      else []
    else []
  else [].

Definition emptyMeta : NodeMeta :=
  {| childFirst := None; childLast := None; meta_shouldBeNewline := false |}.

(** The second loop of [checkSiblings], over [nodesWithContent].  Each
    node comes with the result of [checkSiblings(node.children)], which
    the loop uses exactly where the source makes the recursive call. *)
Fixpoint forEachNode (nodes : list (Node * (NodeMeta * list Report)))
         (meta : NodeMeta) : NodeMeta * list Report :=
  match nodes with
  | [] => (meta, [])
  | (node, (nodeMeta, inner)) :: rest =>
      let nodeNext := match rest with
                      | (next, _) :: _ => Some next
                      | [] => None
                      end in
      let meta1 :=
        {| childFirst := match childFirst meta with
                         | None => Some node
                         | Some first => Some first
                         end;
           childLast := Some node;
           meta_shouldBeNewline := meta_shouldBeNewline meta |} in
      let nodeShouldBeNewline := shouldBeNewline node in
      let '(meta2, out1) :=
        match node with
        | Tag t _ =>
            if negb (JS.includes skipTags (name t)) then
              ({| childFirst := childFirst meta1;
                  childLast := childLast meta1;
                  meta_shouldBeNewline :=
                    if nodeShouldBeNewline || meta_shouldBeNewline nodeMeta
                    then true else meta_shouldBeNewline meta1 |},
               inner ++ openCloseReports node t nodeShouldBeNewline nodeMeta)
            else (meta1, [])
        | _ => (meta1, [])
        end in
      let out2 := match nodeNext with
                  | Some next => pairReports node next
                  | None => []
                  end in
      let '(metaN, outN) := forEachNode rest meta2 in
      (metaN, out1 ++ out2 ++ outN)
  end.

(** [checkSiblings] once the recursive results are tabulated: the first
    loop keeps the nodes that are not white-space-only text. *)
Definition checkSiblingsWith (table : list (Node * (NodeMeta * list Report)))
  : NodeMeta * list Report :=
  forEachNode (filter (fun entry => negb (isEmptyText (fst entry))) table)
              emptyMeta.

(** [checkSiblings(node.children)] *)
Fixpoint checkChildren (node : Node) : NodeMeta * list Report :=
  match node with
  | Tag _ cs => checkSiblingsWith (map (fun c => (c, checkChildren c)) cs)
  | _ => (emptyMeta, [])
  end.

Definition checkSiblings (siblings : list Node) : NodeMeta * list Report :=
  checkSiblingsWith (map (fun c => (c, checkChildren c)) siblings).

(** [nodesWithContent] *)
Definition nodesWithContent (siblings : list Node) : list Node :=
  filter (fun node => negb (isEmptyText node)) siblings.

(** The [Document] callback. *)
Definition run (doc : Document) : list Report :=
  snd (checkSiblings doc).

End Create.

End ElementNewline.

(* ================================================================== *)
(** ** Vocabulary of the properties *)
(* ================================================================== *)

(** Number of occurrences of a code unit in a string. *)
Fixpoint countChar (c : ascii) (s : string) : nat :=
  match s with
  | EmptyString => 0%nat
  | String d rest =>
      if Ascii.eqb d c then S (countChar c rest) else countChar c rest
  end.

(** Total length of a list of strings. *)
Fixpoint totalLength (pieces : list string) : Z :=
  match pieces with
  | [] => 0
  | piece :: rest => JS.length piece + totalLength rest
  end.

(** [tiles s e rs]: the ranges [rs] run from [s] to [e] in order, each one
    starting one position after the end of the one before it (the position
    of the line break between them). *)
Fixpoint tiles (s e : Z) (rs : list Range) : Prop :=
  match rs with
  | [] => False
  | r :: rest =>
      fst r = s /\ fst r <= snd r /\
      match rest with
      | [] => snd r = e
      | _ :: _ => tiles (snd r + 1) e rest
      end
  end.

(** The code unit of [text] at offset [i], counted from 0. *)
Definition charAt (text : string) (i : Z) : option ascii :=
  if i <? 0 then None else String.get (Z.to_nat i) text.

(** The names that open a foreign context. *)
Definition isForeignName (s : string) : bool :=
  JS.includes ["svg"; "math"]%string s.

(** The names of the svg and math tags met on the way from [n] (included)
    down the relative path [r] to its target (excluded), outermost first. *)
Fixpoint foreignBelow (r : Path) (n : Node) : list string :=
  match r with
  | [] => []
  | i :: r' =>
      match n with
      | Tag t cs =>
          (if isForeignName (name t) then [name t] else [])
          ++ match nth_error cs i with
             | Some c => foreignBelow r' c
             | None => []
             end
      | _ => []
      end
  end.

(** The node at [p] has a proper ancestor named svg or math. *)
Definition hasForeignAncestor (doc : Document) (p : Path) : Prop :=
  exists (q r : Path) (t : TagInfo) (cs : list Node),
    p = q ++ r /\ r <> [] /\ nodeAt doc q = Some (Tag t cs)
    /\ isForeignName (name t) = true.

(** The foreign-context stack in the words of the specification: an entry
    records which tag pushed it, and exiting a tag pops the stack when the
    entry on top was pushed by that very tag (the same node, whatever its
    name). *)
Module ForeignContextByIdentity.

Definition Stack : Type := list (Path * string).

Fixpoint samePath (p q : Path) : bool :=
  match p, q with
  | [], [] => true
  | i :: p', j :: q' => Nat.eqb i j && samePath p' q'
  | _, _ => false
  end.

Definition enter (p : Path) (t : TagInfo) (cs : list Node) (st : Stack)
  : Stack :=
  if isForeignName (name t) then st ++ [(p, name t)] else st.

Definition exit (p : Path) (t : TagInfo) (cs : list Node) (st : Stack)
  : Stack :=
  match nth_error st (List.length st - 1) with
  | Some (q, _) => if samePath q p then removelast st else st
  | None => st
  end.

Definition visitor : Visitor Stack :=
  {| onTag := enter; onTagExit := exit |}.

Definition run (doc : Document) : Stack * list (Path * Stack) :=
  traverseDocument visitor doc [].

End ForeignContextByIdentity.

(** Every entry of the stack is svg or math. *)
Definition foreignOnly (stack : list string) : Prop :=
  Forall (fun entry => isForeignName entry = true) stack.

(** What a walk of the closing-tag rule below one node, and below a list of
    children, establishes (the induction invariants of the walk). *)
Section WalkInvariants.

Variables (VOID : list string) (options : list RequireClosingTags.Options).

Local Abbreviation V := (RequireClosingTags.visitor VOID options).

Definition walked (n : Node) : Prop :=
  forall p s,
    foreignOnly (RequireClosingTags.foreignContext s) ->
    RequireClosingTags.foreignContext (fst (traverse V p n s))
    = RequireClosingTags.foreignContext s
    /\ (forall q sq,
           In (q, sq) (snd (traverse V p n s)) ->
           exists r t cs,
             q = p ++ r /\ descend r n = Some (Tag t cs)
             /\ RequireClosingTags.foreignContext sq
                = RequireClosingTags.foreignContext s ++ foreignBelow r n)
    /\ (forall r t cs,
           descend r n = Some (Tag t cs) ->
           exists sq, In (p ++ r, sq) (snd (traverse V p n s)))
    /\ (List.length (RequireClosingTags.reports (fst (traverse V p n s)))
        <= List.length (RequireClosingTags.reports s)
           + List.length (snd (traverse V p n s)))%nat.

Definition walkedChildren (l : list Node) : Prop :=
  forall p i s,
    foreignOnly (RequireClosingTags.foreignContext s) ->
    RequireClosingTags.foreignContext (fst (traverseChildren V p l i s))
    = RequireClosingTags.foreignContext s
    /\ (forall q sq,
           In (q, sq) (snd (traverseChildren V p l i s)) ->
           exists j c r t cs,
             nth_error l j = Some c /\ q = p ++ (i + j)%nat :: r
             /\ descend r c = Some (Tag t cs)
             /\ RequireClosingTags.foreignContext sq
                = RequireClosingTags.foreignContext s ++ foreignBelow r c)
    /\ (forall j c r t cs,
           nth_error l j = Some c ->
           descend r c = Some (Tag t cs) ->
           exists sq,
             In (p ++ (i + j)%nat :: r, sq) (snd (traverseChildren V p l i s)))
    /\ (List.length
          (RequireClosingTags.reports (fst (traverseChildren V p l i s)))
        <= List.length (RequireClosingTags.reports s)
           + List.length (snd (traverseChildren V p l i s)))%nat.

End WalkInvariants.

(** The rule's array of names mirrors a stack of identified entries. *)
Definition mirrors (s : RequireClosingTags.State)
           (st : ForeignContextByIdentity.Stack) : Prop :=
  RequireClosingTags.foreignContext s = map snd st.

(** Every entry of [st] was pushed by an svg or math tag at or above [p];
    [strictlyAbove] asks for proper ancestors of [p]. *)
Definition atOrAbove (p : Path) (st : ForeignContextByIdentity.Stack) : Prop :=
  Forall (fun entry => (exists r, p = fst entry ++ r)
                       /\ isForeignName (snd entry) = true) st.

Definition strictlyAbove (p : Path) (st : ForeignContextByIdentity.Stack)
  : Prop :=
  Forall (fun entry => (exists r, r <> [] /\ p = fst entry ++ r)
                       /\ isForeignName (snd entry) = true) st.

(** Two enter events agree: same tag, and the rule's stack holds the names
    of the identified entries. *)
Definition sameEvent (e : Path * RequireClosingTags.State)
           (e' : Path * ForeignContextByIdentity.Stack) : Prop :=
  fst e = fst e' /\ mirrors (snd e) (snd e').

(** The two diagnostics of the pair check: both are anchored at the later
    node; the first inserts a line break after the earlier node, the second
    before the later node. *)
Definition expectAfter (node nodeNext : Node) : Report :=
  {| report_range := nodeRange nodeNext;
     report_loc := nodeLoc nodeNext;
     report_tag := ElementNewline.label node false;
     messageId := ElementNewline.EXPECT_NEW_LINE_AFTER;
     report_fix :=
       Some (Return (Some [InsertAfter (nodeRange node)
                                       (String JS.LF EmptyString)])) |}.

Definition expectBefore (nodeNext : Node) : Report :=
  {| report_range := nodeRange nodeNext;
     report_loc := nodeLoc nodeNext;
     report_tag := ElementNewline.label nodeNext false;
     messageId := ElementNewline.EXPECT_NEW_LINE_BEFORE;
     report_fix :=
       Some (Return (Some [InsertBefore (nodeRange nodeNext)
                                        (String JS.LF EmptyString)])) |}.

(** The pair check in the words of the specification, for two nodes whose
    lines meet: report AFTER if the earlier wants a newline and the later
    does not start with one; otherwise report BEFORE if the later wants a
    newline and the earlier does not end with one. *)
Definition pairReportsAsStated (options : list ElementNewline.Options)
           (node nodeNext : Node) : list Report :=
  if ElementNewline.shouldBeNewline options node
     && ElementNewline.isNotNewlineStart nodeNext
  then [expectAfter node nodeNext]
  else if ElementNewline.shouldBeNewline options nodeNext
          && ElementNewline.isNotNewlineEnd node
       then [expectBefore nodeNext]
       else [].

(** Two names that differ in letter case only. *)
Definition differInCaseOnly (a b : string) : Prop :=
  a <> b /\ JS.toLowerCase a = JS.toLowerCase b.

(** No code unit of [l] is one of CR, LF, U+2028, U+2029. *)
Definition breakFree (l : list N) : Prop :=
  Forall (fun c => NodeUtils.isLineBreakUnit c = false) l.

(* ================================================================== *)
(** ** Sample inputs *)
(* ================================================================== *)

Module Samples.

Definition at_ (ln c0 c1 : Z) : SourceLocation :=
  {| loc_start := {| line := ln; column := c0 |};
     loc_end := {| line := ln; column := c1 |} |}.

(** A text [ab LF cd] at offsets 10 to 15, starting at line 3, column 4. *)
Definition twoLines : Content :=
  {| value := String "a" (String "b" (String JS.LF "cd"));
     templates := None;
     range := (10, 15);
     loc := {| loc_start := {| line := 3; column := 4 |};
               loc_end := {| line := 4; column := 2 |} |} |}.

Definition token (v : string) (from to : Z) : Token :=
  {| token_value := v; token_range := (from, to); token_loc := at_ 1 from to |}.

(** The void elements of the HTML standard; they stand for the constant
    [VOID_ELEMENTS] of [../constants] in the examples. *)
Definition VOID_ELEMENTS : list string :=
  ["area"; "base"; "br"; "col"; "embed"; "hr"; "img"; "input"; "link";
   "meta"; "param"; "source"; "track"; "wbr"]%string.

(** [<img>] *)
Definition img : TagInfo :=
  {| name := "img"; selfClosing := false;
     openEnd := token ">" 4 5; close := None;
     tag_range := (0, 5); tag_loc := at_ 1 0 5 |}.

(** [<img />] *)
Definition imgSelfClosed : TagInfo :=
  {| name := "img"; selfClosing := true;
     openEnd := token "/>" 5 7; close := None;
     tag_range := (0, 7); tag_loc := at_ 1 0 7 |}.

(** [<div></div>] *)
Definition div : TagInfo :=
  {| name := "div"; selfClosing := false;
     openEnd := token ">" 4 5; close := Some (token "div" 5 11);
     tag_range := (0, 11); tag_loc := at_ 1 0 11 |}.

(** [<my-el/>] *)
Definition myEl : TagInfo :=
  {| name := "my-el"; selfClosing := true;
     openEnd := token "/>" 6 8; close := None;
     tag_range := (0, 8); tag_loc := at_ 1 0 8 |}.

(** [{ selfClosing: "always" }] and [{ selfClosing: "never" }] *)
Definition optAlways : RequireClosingTags.Options :=
  {| RequireClosingTags.opt_selfClosing := Some RequireClosingTags.always;
     RequireClosingTags.opt_allowSelfClosingCustom := None;
     RequireClosingTags.opt_customPatterns := None |}.

Definition optNever : RequireClosingTags.Options :=
  {| RequireClosingTags.opt_selfClosing := Some RequireClosingTags.never;
     RequireClosingTags.opt_allowSelfClosingCustom := None;
     RequireClosingTags.opt_customPatterns := None |}.

(** [{ selfClosing: "always", allowSelfClosingCustom: true }] *)
Definition optAlwaysCustom : RequireClosingTags.Options :=
  {| RequireClosingTags.opt_selfClosing := Some RequireClosingTags.always;
     RequireClosingTags.opt_allowSelfClosingCustom := Some true;
     RequireClosingTags.opt_customPatterns := None |}.

(** [{ selfClosing: "never", allowSelfClosingCustom: true }] *)
Definition optNeverCustom : RequireClosingTags.Options :=
  {| RequireClosingTags.opt_selfClosing := Some RequireClosingTags.never;
     RequireClosingTags.opt_allowSelfClosingCustom := Some true;
     RequireClosingTags.opt_customPatterns := None |}.

(** [{ selfClosing: "always", allowSelfClosingCustom: true,
       customPatterns: ["div"] }] *)
Definition optDivIsCustom : RequireClosingTags.Options :=
  {| RequireClosingTags.opt_selfClosing := Some RequireClosingTags.always;
     RequireClosingTags.opt_allowSelfClosingCustom := Some true;
     RequireClosingTags.opt_customPatterns :=
       Some [RegExp.Cat (RegExp.Chr "d")
                        (RegExp.Cat (RegExp.Chr "i") (RegExp.Chr "v"))] |}.

(** [{ allowSelfClosingCustom: true }] for the second listing. *)
Definition optHyphen : RequireClosingTagsHyphen.Options :=
  {| RequireClosingTagsHyphen.opt_selfClosing := None;
     RequireClosingTagsHyphen.opt_allowSelfClosingCustom := Some true |}.

(** [<div></div>] followed by a text that starts with a line break:
    the tag on line 1, the text from the end of line 1 to line 3. *)
Definition closedDiv : Node := Tag div [].

Definition linesOfText : Node :=
  Text {| value := String JS.LF ("foo" ++ String JS.LF "bar");
          templates := None;
          range := (11, 19);
          loc := {| loc_start := {| line := 1; column := 11 |};
                    loc_end := {| line := 3; column := 3 |} |} |}.

Definition divThenText : Document := [closedDiv; linesOfText].

Definition text (v : string) (from to : Z) : Node :=
  Text {| value := v; templates := None; range := (from, to);
          loc := at_ 1 from to |}.

(** [<b>x</b>] at offsets 3 to 11 and [<div>y</div>] at 11 to 23. *)
Definition bold : Node :=
  Tag {| name := "b"; selfClosing := false;
         openEnd := token ">" 5 6; close := Some (token "b" 7 11);
         tag_range := (3, 11); tag_loc := at_ 1 3 11 |}
      [text "x" 6 7].

Definition division : Node :=
  Tag {| name := "div"; selfClosing := false;
         openEnd := token ">" 15 16; close := Some (token "div" 17 23);
         tag_range := (11, 23); tag_loc := at_ 1 11 23 |}
      [text "y" 16 17].

(** [<p><b>x</b><div>y</div></p>] on one line. *)
Definition paragraph : Document :=
  [ Tag {| name := "p"; selfClosing := false;
           openEnd := token ">" 2 3; close := Some (token "p" 23 27);
           tag_range := (0, 27); tag_loc := at_ 1 0 27 |}
        [bold; division] ].

(** [{ inline: ["$inline"] }] *)
Definition optInlinePreset : ElementNewline.Options :=
  {| ElementNewline.opt_inline := Some ["$inline"%string];
     ElementNewline.opt_skip := None |}.

(** [{ inline: ["B"] }] *)
Definition optInlineUpper : ElementNewline.Options :=
  {| ElementNewline.opt_inline := Some ["B"%string];
     ElementNewline.opt_skip := None |}.

(** [{ skip: ["pre"] }] *)
Definition optSkipPre : ElementNewline.Options :=
  {| ElementNewline.opt_inline := None;
     ElementNewline.opt_skip := Some ["pre"%string] |}.

End Samples.

(* ================================================================== *)
(** ** lib/rules/utils/node.js: attributes, templates, locations, parents *)
(* ================================================================== *)

(** An AttributeKey or AttributeValue: its [value] and its [templates]. *)
Record AttributePart : Type := {
  part_value : string;
  part_templates : list Template
}.

(** An Attribute; the key is absent on a malformed attribute. *)
Record Attribute : Type := {
  attr_key : option AttributePart;
  attr_value : option AttributePart
}.

(** A token of the parser, as [getTemplateTokens] sees it: it may or may
    not carry [templates]. *)
Record AnyToken : Type := {
  any_type : string;
  any_templates : option (list Template)
}.

(** A node together with its chain of parents, as [findParent] sees it:
    the [type], the tag [name] when there is one, and the [parent]. *)
Inductive Linked : Type :=
| link : string -> option string -> option Linked -> Linked.

Definition linkedType (n : Linked) : string :=
  match n with link ty _ _ => ty end.

Definition linkedName (n : Linked) : option string :=
  match n with link _ nm _ => nm end.

Definition linkedParent (n : Linked) : option Linked :=
  match n with link _ _ parent => parent end.

Module NodeQueries.

(** [findAttr(node, key)] reads [node.attributes] only; calling [find] on
    an absent array raises a TypeError. *)
Definition findAttr (attributes : option (list Attribute)) (key : string)
  : Outcome (option Attribute) :=
  match attributes with
  | None => Throw "TypeError"
  | Some attrs =>
      Return
        (find (fun attr =>
                 match attr_key attr with
                 | Some k => String.eqb (JS.toLowerCase (part_value k))
                                        (JS.toLowerCase key)
                 | None => false
                 end)
              attrs)
  end.

(** [isAttributesEmpty(node)] reads [node.attributes] only. *)
Definition isAttributesEmpty (attributes : option (list Attribute)) : bool :=
  match attributes with
  | None => true
  | Some attrs => Z.of_nat (List.length attrs) <=? 0
  end.

(** [isNodeTokensOnSameLine(node)] reads [node.loc] only. *)
Definition isNodeTokensOnSameLine (l : SourceLocation) : bool :=
  line (loc_start l) =? line (loc_end l).

Definition hasTemplate (node : AttributePart) : bool :=
  existsb isTemplate (part_templates node).

(** [getLocBetween(before, after)] reads the two [loc]s only. *)
Definition getLocBetween (before after : SourceLocation) : SourceLocation :=
  {| loc_start := loc_end before; loc_end := loc_start after |}.

Definition isTemplateExpression (ty : string) : bool :=
  String.eqb ty "TaggedTemplateExpression" || String.eqb ty "TemplateLiteral".

Fixpoint findParent (node : Linked) (predicate : Linked -> bool) {struct node}
  : option Linked :=
  match node with
  | link _ _ None => None
  | link ty _ (Some parent) =>
      if isTemplateExpression ty then None
      else if predicate parent then Some parent
           else findParent parent predicate
  end.

(** [[].concat(...tokens.map(t => t.templates || [])).filter(isTemplate)] *)
Definition getTemplateTokens (tokens : list AnyToken) : list Template :=
  filter isTemplate
         (List.concat (map (fun token =>
                              match any_templates token with
                              | Some tpls => tpls
                              | None => []
                              end)
                           tokens)).

End NodeQueries.

(* ================================================================== *)
(** ** Vocabulary of the further properties *)
(* ================================================================== *)

(** The proper ancestors of a node, nearest first. *)
Fixpoint ancestors (n : Linked) : list Linked :=
  match n with
  | link _ _ None => []
  | link _ _ (Some parent) => parent :: ancestors parent
  end.

(** The position [x] lies in the half-open range [r]. *)
Definition inRange (x : Z) (r : Range) : Prop := fst r <= x < snd r.

(** The strings matched by a pattern. *)
Inductive Matches : RegExp.regex -> string -> Prop :=
| MatchEps : Matches RegExp.Eps EmptyString
| MatchChr : forall c, Matches (RegExp.Chr c) (String c EmptyString)
| MatchClass : forall (p : ascii -> bool) c,
    p c = true -> Matches (RegExp.Class p) (String c EmptyString)
| MatchCat : forall a b s1 s2,
    Matches a s1 -> Matches b s2 -> Matches (RegExp.Cat a b) (s1 ++ s2)%string
| MatchAltL : forall a b s, Matches a s -> Matches (RegExp.Alt a b) s
| MatchAltR : forall a b s, Matches b s -> Matches (RegExp.Alt a b) s
| MatchStarNil : forall a, Matches (RegExp.Star a) EmptyString
| MatchStarApp : forall a s1 s2,
    Matches a s1 -> Matches (RegExp.Star a) s2 ->
    Matches (RegExp.Star a) (s1 ++ s2)%string.

(** Every code unit of a string is white space. *)
Fixpoint allWhiteSpace (s : string) : bool :=
  match s with
  | EmptyString => true
  | String c rest => JS.isWhiteSpace c && allWhiteSpace rest
  end.

(** A string holds a given code unit. *)
Fixpoint holds (c : ascii) (s : string) : bool :=
  match s with
  | EmptyString => false
  | String d rest => Ascii.eqb d c || holds c rest
  end.

(** The closing-tag rule without state: the names of the enclosing svg and
    math tags are handed down to the children. *)
Section Stateless.

Variables (VOID : list string) (options : list RequireClosingTags.Options).

Fixpoint diagnoseNode (stack : list string) (n : Node) : list Report :=
  match n with
  | Tag t cs =>
      RequireClosingTags.checkTag VOID options t cs stack
      ++ flat_map (diagnoseNode
                     (if isForeignName (name t) then stack ++ [name t]
                      else stack))
                  cs
  | _ => []
  end.

Definition diagnose (doc : Document) : list Report :=
  flat_map (diagnoseNode []) doc.

End Stateless.

(** A fix of the newline rule: one insertion of a line break. *)
Definition insertsLineBreak (r : Report) : Prop :=
  exists range,
    report_fix r
    = Some (Return (Some [InsertBefore range (String JS.LF EmptyString)]))
    \/ report_fix r
       = Some (Return (Some [InsertAfter range (String JS.LF EmptyString)])).

(** The code units of a text as UTF-16 code units. *)
Fixpoint units (s : string) : list N :=
  match s with
  | EmptyString => []
  | String c rest => N_of_ascii c :: units rest
  end.

(* ================================================================== *)
(** ** Further sample inputs *)
(* ================================================================== *)

Module MoreSamples.

(** [<foo>], never closed. *)
Definition foo : TagInfo :=
  {| name := "foo"; selfClosing := false;
     openEnd := Samples.token ">" 4 5; close := None;
     tag_range := (0, 5); tag_loc := Samples.at_ 1 0 5 |}.

(** [<div/>] *)
Definition divSelfClosed : TagInfo :=
  {| name := "div"; selfClosing := true;
     openEnd := Samples.token "/>" 4 6; close := None;
     tag_range := (0, 6); tag_loc := Samples.at_ 1 0 6 |}.

(** [{ selfClosing: "never" }] for the second listing. *)
Definition optHyphenNever : RequireClosingTagsHyphen.Options :=
  {| RequireClosingTagsHyphen.opt_selfClosing :=
       Some RequireClosingTags.never;
     RequireClosingTagsHyphen.opt_allowSelfClosingCustom := None |}.

End MoreSamples.

(* ================================================================== *)
(** * Properties *)
(* ================================================================== *)

(** ** Strings *)

Lemma length_String : forall c s, JS.length (String c s) = 1 + JS.length s.
Proof. intros c s. unfold JS.length. simpl String.length. lia. Qed.

Lemma length_nonneg : forall s, 0 <= JS.length s.
Proof. intro s. unfold JS.length. lia. Qed.

Lemma split_not_nil : forall sep s, JS.split sep s <> [].
Proof.
  intros sep s. destruct s as [|c rest]; simpl.
  - discriminate.
  - destruct (Ascii.eqb c sep); [discriminate|].
    destruct (JS.split sep rest); discriminate.
Qed.

Lemma split_length :
  forall sep s, List.length (JS.split sep s) = S (countChar sep s).
Proof.
  intros sep s. induction s as [|c rest IH]; simpl.
  - reflexivity.
  - destruct (Ascii.eqb c sep); simpl.
    + now rewrite IH.
    + destruct (JS.split sep rest) as [|piece pieces] eqn:E.
      * now destruct (split_not_nil sep rest).
      * exact IH.
Qed.

Lemma join_String :
  forall sep c piece pieces,
    JS.join sep (String c piece :: pieces)
    = String c (JS.join sep (piece :: pieces)).
Proof. intros sep c piece pieces. destruct pieces; reflexivity. Qed.

Lemma join_cons :
  forall sep p q rest,
    JS.join sep (p :: q :: rest) = (p ++ sep ++ JS.join sep (q :: rest))%string.
Proof. reflexivity. Qed.

Lemma join_split :
  forall sep s, JS.join (String sep EmptyString) (JS.split sep s) = s.
Proof.
  intros sep s. induction s as [|c rest IH].
  - reflexivity.
  - cbn [JS.split]. destruct (Ascii.eqb c sep) eqn:Ec.
    + apply Ascii.eqb_eq in Ec. subst c.
      destruct (JS.split sep rest) as [|piece pieces] eqn:E.
      * now destruct (split_not_nil sep rest).
      * rewrite join_cons, IH. reflexivity.
    + destruct (JS.split sep rest) as [|piece pieces] eqn:E.
      * now destruct (split_not_nil sep rest).
      * rewrite join_String, IH. reflexivity.
Qed.

Lemma split_totalLength :
  forall sep s,
    totalLength (JS.split sep s) + Z.of_nat (countChar sep s) = JS.length s.
Proof.
  intros sep s. induction s as [|c rest IH].
  - reflexivity.
  - cbn [JS.split countChar]. rewrite length_String.
    destruct (Ascii.eqb c sep).
    + cbn [totalLength]. change (JS.length EmptyString) with 0. lia.
    + destruct (JS.split sep rest) as [|piece pieces] eqn:E.
      * now destruct (split_not_nil sep rest).
      * cbn [totalLength] in *. rewrite length_String. lia.
Qed.

(** ** Ranges *)

(** C7.  [isRangesOverlap] is symmetric; it answers true exactly when each
    range starts strictly before the other one ends; and it answers false,
    in either order, for two ranges that only share a boundary point. *)
Theorem isRangesOverlap_symmetric_strict :
  forall a b : Range,
    NodeUtils.isRangesOverlap a b = NodeUtils.isRangesOverlap b a
    /\ (NodeUtils.isRangesOverlap a b = true <-> fst a < snd b /\ fst b < snd a)
    /\ (forall s m e : Z,
           NodeUtils.isRangesOverlap (s, m) (m, e) = false
           /\ NodeUtils.isRangesOverlap (m, e) (s, m) = false).
Proof.
  intros [a0 a1] [b0 b1]. unfold NodeUtils.isRangesOverlap. cbn [fst snd].
  repeat split.
  - apply andb_comm.
  - apply andb_true_iff in H. destruct H as [H _]. now apply Z.ltb_lt in H.
  - apply andb_true_iff in H. destruct H as [_ H]. now apply Z.ltb_lt in H.
  - intros [H1 H2]. apply andb_true_iff. split; now apply Z.ltb_lt.
  - rewrite (Z.ltb_irrefl m). apply andb_false_r.
  - rewrite (Z.ltb_irrefl m). apply andb_false_l.
Qed.

(** ** Line nodes *)

Section ForEachLine.

Variables (startCol : Z) (tpls : list Template).

Lemma forEachLine_values :
  forall values index start ln,
    map line_value (NodeUtils.forEachLine startCol tpls values index start ln)
    = values.
Proof.
  induction values as [|v rest IH]; intros; simpl.
  - reflexivity.
  - now rewrite IH.
Qed.

Lemma forEachLine_length :
  forall values index start ln,
    List.length (NodeUtils.forEachLine startCol tpls values index start ln)
    = List.length values.
Proof.
  intros. rewrite <- (forEachLine_values values index start ln) at 2.
  now rewrite length_map.
Qed.

Lemma forEachLine_tiles :
  forall values index start ln,
    values <> [] ->
    tiles start
          (start + totalLength values + Z.of_nat (List.length values) - 1)
          (map line_range
               (NodeUtils.forEachLine startCol tpls values index start ln)).
Proof.
  induction values as [|v rest IH]; intros index start ln Hne.
  - now destruct Hne.
  - cbn [NodeUtils.forEachLine map tiles line_range fst snd totalLength].
    pose proof (length_nonneg v) as Hv.
    split; [reflexivity|]. split; [lia|].
    destruct rest as [|w rest'].
    + cbn. lia.
    + specialize (IH (S index) (start + JS.length v + 1) (ln + 1)).
      assert (Hne' : w :: rest' <> []) by discriminate.
      specialize (IH Hne').
      cbn [NodeUtils.forEachLine map] in IH |- *.
      replace (start + (JS.length v + totalLength (w :: rest'))
               + Z.of_nat (List.length (v :: w :: rest')) - 1)
        with (start + JS.length v + 1 + totalLength (w :: rest')
              + Z.of_nat (List.length (w :: rest')) - 1)
        by (cbn [List.length]; lia).
      exact IH.
Qed.

Lemma forEachLine_nth :
  forall values index start ln i l,
    nth_error (NodeUtils.forEachLine startCol tpls values index start ln) i
    = Some l ->
    snd (line_range l) - fst (line_range l) = JS.length (line_value l)
    /\ line (loc_start (line_loc l)) = ln + Z.of_nat i
    /\ line (loc_end (line_loc l)) = ln + Z.of_nat i
    /\ start <= fst (line_range l).
Proof.
  induction values as [|v rest IH]; intros index start ln i l H.
  - destruct i; discriminate.
  - destruct i as [|i'].
    + cbn in H. injection H as <-. cbn. repeat split; lia.
    + change (nth_error
                (NodeUtils.forEachLine startCol tpls rest (S index)
                                       (start + JS.length v + 1) (ln + 1)) i'
              = Some l) in H.
      apply IH in H. pose proof (length_nonneg v).

      destruct H as (H1 & H2 & H3 & H4). repeat split; lia.
Qed.

Lemma forEachLine_gap :
  forall values index start ln i l,
    nth_error (NodeUtils.forEachLine startCol tpls values index start ln) i
    = Some l ->
    (S i < List.length values)%nat ->
    charAt (JS.join (String JS.LF EmptyString) values)
           (snd (line_range l) - start)
    = Some JS.LF.
Proof.
  induction values as [|v rest IH]; intros index start ln i l H Hi.
  - destruct i; discriminate.
  - destruct rest as [|w rest']; [cbn in Hi; lia|].
    rewrite join_cons.
    destruct i as [|i'].
    + cbn in H. injection H as <-. cbn [line_range snd].
      replace (start + JS.length v - start) with (JS.length v) by lia.
      unfold charAt. pose proof (length_nonneg v) as Hv.
      destruct (JS.length v <? 0) eqn:E; [apply Z.ltb_lt in E; lia|].
      unfold JS.length. rewrite Nat2Z.id.
      rewrite <- (append_correct2 v _ 0). reflexivity.
    + change (nth_error
                (NodeUtils.forEachLine startCol tpls (w :: rest') (S index)
                                       (start + JS.length v + 1) (ln + 1)) i'
              = Some l) in H.
      pose proof (forEachLine_nth _ _ _ _ _ _ H) as (Hw & _ & _ & Hlo).
      pose proof (length_nonneg (line_value l)) as Hl.
      pose proof (length_nonneg v) as Hv.
      specialize (IH _ _ _ _ _ H).
      cbn [List.length] in Hi. specialize (IH ltac:(cbn [List.length]; lia)).
      unfold charAt in *.
      destruct (snd (line_range l) - (start + JS.length v + 1) <? 0) eqn:E1;
        [discriminate|].
      apply Z.ltb_ge in E1.
      destruct (snd (line_range l) - start <? 0) eqn:E2;
        [apply Z.ltb_lt in E2; lia|].
      replace (Z.to_nat (snd (line_range l) - start))
        with (S (Z.to_nat (snd (line_range l) - (start + JS.length v + 1)))
              + String.length v)%nat
        by (unfold JS.length in *; lia).
      rewrite <- (append_correct2 v). cbn [String.append String.get]. exact IH.
Qed.

End ForEachLine.

(** C5.  For a Text or CommentContent node whose range spans its value, and
    whose value holds [k] line breaks, [splitToLineNodes] returns [k + 1]
    Line nodes, in line order; their values joined with a line break give
    the value back; their ranges run from the start to the end of the
    node's range, each as wide as its value and each starting one position
    after the previous one ends, that position holding the line break; the
    widths and the [k] line breaks add up to [value.length]; and the result
    depends on nothing but the value, the templates, the start offset and
    the start position of the node. *)
Theorem splitToLineNodes_partition :
  forall node : Content,
    snd (range node) = fst (range node) + JS.length (value node) ->
    let lines := NodeUtils.splitToLineNodes node in
    let k := countChar JS.LF (value node) in
    List.length lines = S k
    /\ JS.join (String JS.LF EmptyString) (map line_value lines) = value node
    /\ tiles (fst (range node)) (snd (range node)) (map line_range lines)
    /\ (forall i l,
           nth_error lines i = Some l ->
           snd (line_range l) - fst (line_range l) = JS.length (line_value l)
           /\ line (loc_start (line_loc l))
              = line (loc_start (loc node)) + Z.of_nat i
           /\ ((S i < List.length lines)%nat ->
               charAt (value node) (snd (line_range l) - fst (range node))
               = Some JS.LF))
    /\ totalLength (map line_value lines) + Z.of_nat k = JS.length (value node)
    /\ (forall other : Content,
           value other = value node ->
           templates other = templates node ->
           fst (range other) = fst (range node) ->
           loc_start (loc other) = loc_start (loc node) ->
           NodeUtils.splitToLineNodes other = lines).
Proof.
  intros node Hrange lines k. subst lines k.
  unfold NodeUtils.splitToLineNodes.
  set (tpls := match templates node with Some t => t | None => [] end).
  set (col := column (loc_start (loc node))).
  set (ln := line (loc_start (loc node))).
  pose proof (split_not_nil JS.LF (value node)) as Hne.
  pose proof (split_length JS.LF (value node)) as Hlen.
  pose proof (split_totalLength JS.LF (value node)) as Htot.
  repeat split.
  - now rewrite forEachLine_length.
  - rewrite forEachLine_values. apply join_split.
  - rewrite Hrange.
    replace (fst (range node) + JS.length (value node))
      with (fst (range node) + totalLength (JS.split JS.LF (value node))
            + Z.of_nat (List.length (JS.split JS.LF (value node))) - 1)
      by (rewrite Hlen; lia).
    now apply forEachLine_tiles.
  - now apply forEachLine_nth in H.
  - now apply forEachLine_nth in H.
  - intro Hi. rewrite forEachLine_length in Hi.
    rewrite <- (join_split JS.LF (value node)) at 1.
    eapply forEachLine_gap; eauto.
  - rewrite forEachLine_values. exact Htot.
  - intros other Hv Ht Hr Hl. now rewrite Hv, Ht, Hr, Hl.
Qed.

(** The sample text splits into its two lines. *)
Lemma splitToLineNodes_partition_witness :
  snd (range Samples.twoLines)
  = fst (range Samples.twoLines) + JS.length (value Samples.twoLines)
  /\ List.length (NodeUtils.splitToLineNodes Samples.twoLines) = 2%nat.
Proof.
  split.
  - reflexivity.
  - exact (proj1 (splitToLineNodes_partition Samples.twoLines eq_refl)).
Defined.

(** ** Source lines *)

Lemma isLineBreakUnit_spec :
  forall c,
    NodeUtils.isLineBreakUnit c = true
    <-> c = NodeUtils.cuCR \/ c = NodeUtils.cuLF
        \/ c = NodeUtils.cuLS \/ c = NodeUtils.cuPS.
Proof.
  intro c. unfold NodeUtils.isLineBreakUnit.
  rewrite !orb_true_iff, !N.eqb_eq. tauto.
Qed.

Lemma codeToLines_not_nil : forall source, NodeUtils.codeToLines source <> [].
Proof.
  intros [|c rest]; cbn [NodeUtils.codeToLines].
  - discriminate.
  - destruct (NodeUtils.isLineBreakUnit c).
    + destruct rest as [|c' rest']; [discriminate|].
      destruct ((c =? NodeUtils.cuCR)%N && (c' =? NodeUtils.cuLF)%N);
        discriminate.
    + destruct (NodeUtils.codeToLines rest); discriminate.
Qed.

Lemma codeToLines_breakFree :
  forall l, breakFree l -> NodeUtils.codeToLines l = [l].
Proof.
  induction 1 as [|c l Hc Hl IH].
  - reflexivity.
  - cbn [NodeUtils.codeToLines]. now rewrite Hc, IH.
Qed.

Lemma codeToLines_prefix :
  forall l r,
    breakFree l ->
    NodeUtils.codeToLines (l ++ r)
    = match NodeUtils.codeToLines r with
      | piece :: pieces => (l ++ piece) :: pieces
      | [] => [l]
      end.
Proof.
  induction 1 as [|c l Hc Hl IH].
  - cbn [app]. destruct (NodeUtils.codeToLines r) eqn:E; [|reflexivity].
    now destruct (codeToLines_not_nil r).
  - cbn [app NodeUtils.codeToLines]. rewrite Hc, IH.
    destruct (NodeUtils.codeToLines r) eqn:E; [|reflexivity].
    now destruct (codeToLines_not_nil r).
Qed.

Lemma codeToLines_lines_breakFree :
  forall source, Forall breakFree (NodeUtils.codeToLines source).
Proof.
  assert (H : forall n source,
             (List.length source <= n)%nat ->
             Forall breakFree (NodeUtils.codeToLines source)).
  { induction n as [|n IH]; intros [|c rest] Hlen;
      try (repeat constructor); try (cbn in Hlen; lia).
    cbn [NodeUtils.codeToLines]. cbn [List.length] in Hlen.
    destruct (NodeUtils.isLineBreakUnit c) eqn:Ec.
    - destruct rest as [|c' rest'].
      + repeat constructor.
      + destruct ((c =? NodeUtils.cuCR)%N && (c' =? NodeUtils.cuLF)%N).
        * constructor; [constructor|]. apply IH. cbn [List.length] in Hlen. lia.
        * constructor; [constructor|]. apply IH. lia.
    - assert (Hrest : Forall breakFree (NodeUtils.codeToLines rest))
        by (apply IH; lia).
      destruct (NodeUtils.codeToLines rest) as [|piece pieces].
      + repeat constructor. exact Ec.
      + inversion Hrest as [|x y Hpiece Hpieces]; subst.
        constructor; [|exact Hpieces]. constructor; assumption. }
  intro source. now apply (H (List.length source)).
Qed.

(** C8 (as the code has it).  [codeToLines] splits exactly at CR LF, at a
    lone CR, at LF, at U+2028 and at U+2029: a stretch [l] without any of
    the four code units is returned whole; followed by CR LF, or by one of
    the four code units [c] that is not the CR of a CR LF, it is the first
    line and the rest of the text is split in the same way; and no line of
    any text holds one of the four code units. *)
Theorem codeToLines_breaks :
  forall (l r : list N),
    breakFree l ->
    Forall breakFree (NodeUtils.codeToLines (l ++ r))
    /\ NodeUtils.codeToLines l = [l]
    /\ NodeUtils.codeToLines (l ++ NodeUtils.cuCR :: NodeUtils.cuLF :: r)
       = l :: NodeUtils.codeToLines r
    /\ (forall c,
           (c = NodeUtils.cuCR /\ hd_error r <> Some NodeUtils.cuLF)
           \/ c = NodeUtils.cuLF \/ c = NodeUtils.cuLS \/ c = NodeUtils.cuPS ->
           NodeUtils.codeToLines (l ++ c :: r) = l :: NodeUtils.codeToLines r).
Proof.
  intros l r Hl. split; [apply codeToLines_lines_breakFree|].
  split; [now apply codeToLines_breakFree|]. split.
  - rewrite codeToLines_prefix by assumption.
    cbn. now rewrite app_nil_r.
  - intros c Hc. rewrite codeToLines_prefix by assumption.
    assert (Hb : NodeUtils.isLineBreakUnit c = true)
      by (apply isLineBreakUnit_spec; tauto).
    cbn [NodeUtils.codeToLines]. rewrite Hb.
    destruct r as [|c' r'].
    + now rewrite app_nil_r.
    + assert (E : ((c =? NodeUtils.cuCR)%N && (c' =? NodeUtils.cuLF)%N) = false).
      { apply andb_false_iff.
        destruct Hc as [[-> Hhd] | [-> | [-> | ->]]];
          try (left; reflexivity).
        right. apply N.eqb_neq. intros ->. now apply Hhd. }
      rewrite E. now rewrite app_nil_r.
Qed.

(** A text with two lines ended by CR LF and by U+2028. *)
Lemma codeToLines_breaks_witness :
  breakFree [97; 98]%N
  /\ NodeUtils.codeToLines ([97; 98] ++ NodeUtils.cuCR :: NodeUtils.cuLF
                                     :: [99; 8232; 100])%N
     = [[97; 98]; [99]; [100]]%N.
Proof.
  assert (H : breakFree [97; 98]%N) by (repeat constructor).
  split; [exact H|].
  exact (proj1 (proj2 (proj2
           (codeToLines_breaks [97; 98]%N [99; 8232; 100]%N H)))).
Defined.

(** C8 (as stated) fails: a text that holds no CR LF, no LF, no U+2028 and
    no U+2029 is still split, at its lone CR. *)
Lemma codeToLines_splits_at_lone_CR :
  (forall c, In c [97; 13; 98]%N ->
             c <> NodeUtils.cuLF /\ c <> NodeUtils.cuLS /\ c <> NodeUtils.cuPS)
  /\ NodeUtils.codeToLines [97; 13; 98]%N = [[97]; [98]]%N
  /\ NodeUtils.codeToLines [97; 13; 98]%N <> [[97; 13; 98]]%N.
Proof.
  split; [|split].
  - intros c [<- | [<- | [<- | []]]]; repeat split; discriminate.
  - reflexivity.
  - discriminate.
Qed.

(** ** Arrays of names *)

Lemma includes_In :
  forall l x, JS.includes l x = true <-> In x l.
Proof.
  intros l x. unfold JS.includes. rewrite existsb_exists. split.
  - intros (y & Hy & He). apply String.eqb_eq in He. now subst.
  - intro H. exists x. split; [exact H | apply String.eqb_refl].
Qed.

(** ** Patterns *)

Lemma test_start_Void : forall s, RegExp.test_start RegExp.Void s = false.
Proof. induction s as [|c s IH]; [reflexivity | exact IH]. Qed.

Lemma test_start_Eps : forall s, RegExp.test_start RegExp.Eps s = true.
Proof. destruct s; reflexivity. Qed.

Lemma test_start_Chr :
  forall c s,
    RegExp.test_start (RegExp.Chr c) s
    = match s with
      | EmptyString => false
      | String d _ => Ascii.eqb c d
      end.
Proof.
  intros c [|d s]; [reflexivity|].
  cbn [RegExp.test_start RegExp.nullable RegExp.deriv orb].
  rewrite (Ascii.eqb_sym d c).
  destruct (Ascii.eqb c d); [apply test_start_Eps | apply test_start_Void].
Qed.

(** The default custom pattern ["-"] matches the names that hold a hyphen. *)
Lemma test_hyphen :
  forall s,
    RegExp.test (RegExp.Chr "-"%char) s = RequireClosingTagsHyphen.hasHyphen s.
Proof.
  unfold RequireClosingTagsHyphen.hasHyphen.
  induction s as [|d s IH]; [reflexivity|].
  cbn [RegExp.test list_ascii_of_string existsb].
  now rewrite test_start_Chr, IH.
Qed.

(** ** The closing-tag rule: one tag *)

Lemma checkVoidElement_length :
  forall node should fixable,
    (List.length (RequireClosingTags.checkVoidElement node should fixable)
     <= 1)%nat.
Proof.
  intros node should fixable. unfold RequireClosingTags.checkVoidElement.
  destruct should, (String.eqb (token_value (openEnd node)) "/>"); cbn; lia.
Qed.

Lemma checkVoidElement_not_missing :
  forall node should fixable r,
    In r (RequireClosingTags.checkVoidElement node should fixable) ->
    messageId r <> RequireClosingTags.MISSING.
Proof.
  intros node should fixable r. unfold RequireClosingTags.checkVoidElement.
  destruct should, (String.eqb (token_value (openEnd node)) "/>");
    cbn; intros H; intuition (subst; discriminate).
Qed.

Lemma checkTag_length :
  forall VOID options node children stack,
    (List.length (RequireClosingTags.checkTag VOID options node children stack)
     <= 1)%nat.
Proof.
  intros VOID options node children stack. unfold RequireClosingTags.checkTag.
  destruct (selfClosing node
            || RequireClosingTags.canSelfClose VOID options node children stack).
  - apply checkVoidElement_length.
  - destruct (negb (String.eqb (token_value (openEnd node)) "/>")).
    + unfold RequireClosingTags.checkClosingTag.
      destruct (close node); cbn; lia.
    + cbn; lia.
Qed.

Lemma isCustomElement_default :
  forall options node,
    RequireClosingTags.customPatterns options = [RegExp.Chr "-"%char] ->
    RequireClosingTags.isCustomElement options node
    = RequireClosingTagsHyphen.hasHyphen (name node).
Proof.
  intros options node H. unfold RequireClosingTags.isCustomElement.
  rewrite H. cbn [existsb]. rewrite test_hyphen. apply orb_false_r.
Qed.

(** C3 (as the code has it).  A tag named div that is not a void element,
    written [<div></div>] without children and outside any svg or math,
    gets no diagnostic, except when selfClosing is "always",
    allowSelfClosingCustom is true and one of the customPatterns matches
    the name div; with the default customPatterns it never gets one. *)
Theorem div_without_diagnostics :
  forall VOID options node closeTag,
    name node = "div"%string ->
    RequireClosingTags.isVoidElement VOID node = false ->
    selfClosing node = false ->
    token_value (openEnd node) = ">"%string ->
    close node = Some closeTag ->
    (RequireClosingTags.checkTag VOID options node [] [] = []
     <-> RequireClosingTags.preferSelfClose options
         && RequireClosingTags.allowSelfClosingCustom options
         && RequireClosingTags.isCustomElement options node = false)
    /\ (RequireClosingTags.customPatterns options = [RegExp.Chr "-"%char] ->
        RequireClosingTags.checkTag VOID options node [] [] = []).
Proof.
  intros VOID options node closeTag Hname Hvoid Hself Hopen Hclose.
  assert (Hiff :
            RequireClosingTags.checkTag VOID options node [] [] = []
            <-> RequireClosingTags.preferSelfClose options
                && RequireClosingTags.allowSelfClosingCustom options
                && RequireClosingTags.isCustomElement options node = false).
  { unfold RequireClosingTags.checkTag, RequireClosingTags.canSelfClose,
      RequireClosingTags.checkVoidElement, RequireClosingTags.checkClosingTag.
    rewrite Hvoid, Hself, Hopen, Hclose. cbn.
    destruct (RequireClosingTags.preferSelfClose options),
      (RequireClosingTags.allowSelfClosingCustom options),
      (RequireClosingTags.isCustomElement options node);
      cbn; split; intro H; try reflexivity; discriminate. }
  split; [exact Hiff|].
  intro Hdefault. apply Hiff.
  rewrite (isCustomElement_default _ _ Hdefault), Hname.
  cbn. now rewrite !andb_false_r.
Qed.

(** [<div></div>] under [{ selfClosing: "always" }]. *)
Lemma div_without_diagnostics_witness :
  RequireClosingTags.checkTag Samples.VOID_ELEMENTS [Samples.optAlways]
                              Samples.div [] [] = [].
Proof.
  exact (proj2 (div_without_diagnostics
                  Samples.VOID_ELEMENTS [Samples.optAlways] Samples.div
                  (Samples.token "div" 5 11)
                  eq_refl eq_refl eq_refl eq_refl eq_refl)
               eq_refl).
Defined.

(** C3 (as stated) fails: with the pattern [div] among the customPatterns,
    [<div></div>] is reported MISSING_SELF, with a fix. *)
Lemma div_reported_when_custom :
  RequireClosingTags.checkTag Samples.VOID_ELEMENTS [Samples.optDivIsCustom]
                              Samples.div [] []
  = [ {| report_range := (4, 5);
         report_loc := Samples.at_ 1 4 5;
         report_tag := "div";
         messageId := RequireClosingTags.MISSING_SELF;
         report_fix :=
           Some (Return (Some [ReplaceRange (4, 5) " />";
                               RemoveRange (5, 11)])) |} ].
Proof. reflexivity. Qed.

(** C1 (as the code has it).  A tag with a hyphen in its name, written with
    a self-closing slash, under allowSelfClosingCustom = true.  In the
    second listing it gets no diagnostic, whatever selfClosing says.  In the
    first listing it is never reported MISSING_SELF; when it has no
    children and the customPatterns are the default ones, it gets no
    diagnostic under "always", and under "never" it is reported UNEXPECTED
    with the fix that rewrites its open-tag end to [>]. *)
Theorem selfClosing_custom_element :
  forall VOID node,
    RequireClosingTagsHyphen.hasHyphen (name node) = true ->
    selfClosing node = true ->
    token_value (openEnd node) = "/>"%string ->
    (forall options,
        RequireClosingTagsHyphen.allowSelfClosingCustom options = true ->
        RequireClosingTagsHyphen.checkTag VOID options node = [])
    /\ (forall options children stack r,
           In r (RequireClosingTags.checkTag VOID options node children stack) ->
           messageId r <> RequireClosingTags.MISSING_SELF)
    /\ (forall options stack,
           RequireClosingTags.allowSelfClosingCustom options = true ->
           RequireClosingTags.customPatterns options = [RegExp.Chr "-"%char] ->
           RequireClosingTags.checkTag VOID options node [] stack
           = if RequireClosingTags.preferSelfClose options
             then []
             else [ {| report_range := token_range (openEnd node);
                       report_loc := token_loc (openEnd node);
                       report_tag := name node;
                       messageId := RequireClosingTags.UNEXPECTED;
                       report_fix :=
                         Some (Return
                                 (Some [ReplaceRange (token_range (openEnd node))
                                                     ">"])) |} ]).
Proof.
  intros VOID node Hhyphen Hself Hopen. split; [|split].
  - intros options Hallow. unfold RequireClosingTagsHyphen.checkTag.
    rewrite Hself, Hallow, Hhyphen. cbn [andb].
    unfold RequireClosingTagsHyphen.checkVoidElement. now rewrite Hopen.
  - intros options children stack r.
    unfold RequireClosingTags.checkTag. rewrite Hself. cbn [orb].
    unfold RequireClosingTags.checkVoidElement. rewrite Hopen.
    cbn [String.eqb Ascii.eqb Bool.eqb negb andb app].
    rewrite andb_false_r. cbn [app].
    destruct (negb _ && true); cbn; intros H; intuition (subst; discriminate).
  - intros options stack Hallow Hdefault.
    unfold RequireClosingTags.checkTag, RequireClosingTags.canSelfClose.
    rewrite (isCustomElement_default _ _ Hdefault), Hhyphen, Hallow, Hself.
    cbn [List.length Z.of_nat Z.ltb Z.compare negb andb orb].
    rewrite orb_true_r.
    unfold RequireClosingTags.checkVoidElement. rewrite Hopen.
    destruct (RequireClosingTags.preferSelfClose options); reflexivity.
Qed.

(** [<my-el/>] under [{ allowSelfClosingCustom: true }] in the second
    listing. *)
Lemma selfClosing_custom_element_witness :
  RequireClosingTagsHyphen.checkTag Samples.VOID_ELEMENTS [Samples.optHyphen]
                                    Samples.myEl = [].
Proof.
  exact (proj1 (selfClosing_custom_element
                  Samples.VOID_ELEMENTS Samples.myEl eq_refl eq_refl eq_refl)
               [Samples.optHyphen] eq_refl).
Defined.

(** C1 (as stated) fails in the first listing: under
    [{ selfClosing: "never", allowSelfClosingCustom: true }] the tag
    [<my-el/>] is reported UNEXPECTED, with the fix that rewrites [/>]
    to [>]. *)
Lemma selfClosing_custom_element_forced :
  RequireClosingTagsHyphen.hasHyphen (name Samples.myEl) = true
  /\ RequireClosingTags.allowSelfClosingCustom [Samples.optNeverCustom] = true
  /\ RequireClosingTags.checkTag Samples.VOID_ELEMENTS [Samples.optNeverCustom]
                                 Samples.myEl [] []
     = [ {| report_range := (6, 8);
            report_loc := Samples.at_ 1 6 8;
            report_tag := "my-el";
            messageId := RequireClosingTags.UNEXPECTED;
            report_fix := Some (Return (Some [ReplaceRange (6, 8) ">"])) |} ].
Proof. repeat split. Qed.

(** C2 (failing input).  For a void element written with the open-tag end
    [>] and without a closing tag, under selfClosing = "always", the rule
    reports MISSING_SELF and the fix callback throws: it hands the absent
    [node.close] to [fixer.remove]. *)
Theorem missingSelf_fix_throws_without_close :
  forall VOID options node children stack,
    RequireClosingTags.isVoidElement VOID node = true ->
    RequireClosingTags.preferSelfClose options = true ->
    token_value (openEnd node) = ">"%string ->
    close node = None ->
    RequireClosingTags.checkTag VOID options node children stack
    = [ {| report_range := token_range (openEnd node);
           report_loc := token_loc (openEnd node);
           report_tag := name node;
           messageId := RequireClosingTags.MISSING_SELF;
           report_fix := Some (Throw "TypeError") |} ].
Proof.
  intros VOID options node children stack Hvoid Hprefer Hopen Hclose.
  unfold RequireClosingTags.checkTag, RequireClosingTags.canSelfClose.
  rewrite Hvoid, Hprefer. cbn [orb andb]. rewrite orb_true_r.
  unfold RequireClosingTags.checkVoidElement. now rewrite Hopen, Hclose.
Qed.

(** [<img>] under [{ selfClosing: "always" }]. *)
Lemma missingSelf_fix_throws_without_close_witness :
  RequireClosingTags.checkTag Samples.VOID_ELEMENTS [Samples.optAlways]
                              Samples.img [] []
  = [ {| report_range := (4, 5);
         report_loc := Samples.at_ 1 4 5;
         report_tag := "img";
         messageId := RequireClosingTags.MISSING_SELF;
         report_fix := Some (Throw "TypeError") |} ].
Proof.
  exact (missingSelf_fix_throws_without_close
           Samples.VOID_ELEMENTS [Samples.optAlways] Samples.img [] []
           eq_refl eq_refl eq_refl eq_refl).
Defined.

(** The rest of C2 holds: with a closing tag written, the MISSING_SELF fix
    rewrites the open-tag end to [ />] and removes the closing tag. *)
Lemma missingSelf_fix_with_close :
  forall VOID options node children stack closeTag,
    RequireClosingTags.isVoidElement VOID node = true ->
    RequireClosingTags.preferSelfClose options = true ->
    token_value (openEnd node) = ">"%string ->
    close node = Some closeTag ->
    RequireClosingTags.checkTag VOID options node children stack
    = [ {| report_range := token_range (openEnd node);
           report_loc := token_loc (openEnd node);
           report_tag := name node;
           messageId := RequireClosingTags.MISSING_SELF;
           report_fix :=
             Some (Return (Some [ReplaceRange (token_range (openEnd node)) " />";
                                 RemoveRange (token_range closeTag)])) |} ].
Proof.
  intros VOID options node children stack closeTag Hvoid Hprefer Hopen Hclose.
  unfold RequireClosingTags.checkTag, RequireClosingTags.canSelfClose.
  rewrite Hvoid, Hprefer. cbn [orb andb]. rewrite orb_true_r.
  unfold RequireClosingTags.checkVoidElement. now rewrite Hopen, Hclose.
Qed.

(** The rest of C2 holds: under "never", a void element written with [/>]
    is reported UNEXPECTED, the fix rewriting the open-tag end to [>]. *)
Lemma unexpected_fix_for_void :
  forall VOID options node children stack,
    RequireClosingTags.isVoidElement VOID node = true ->
    RequireClosingTags.preferSelfClose options = false ->
    token_value (openEnd node) = "/>"%string ->
    RequireClosingTags.checkTag VOID options node children stack
    = [ {| report_range := token_range (openEnd node);
           report_loc := token_loc (openEnd node);
           report_tag := name node;
           messageId := RequireClosingTags.UNEXPECTED;
           report_fix :=
             Some (Return (Some [ReplaceRange (token_range (openEnd node))
                                              ">"])) |} ].
Proof.
  intros VOID options node children stack Hvoid Hprefer Hopen.
  unfold RequireClosingTags.checkTag, RequireClosingTags.canSelfClose.
  rewrite Hvoid, Hprefer. cbn [orb andb]. rewrite orb_true_r.
  unfold RequireClosingTags.checkVoidElement. now rewrite Hopen.
Qed.

(** ** The walk *)

Section NodeInduction.

Variable P : Node -> Prop.
Hypothesis Htag : forall t cs, Forall P cs -> P (Tag t cs).
Hypothesis Hleaf : forall n, (forall t cs, n <> Tag t cs) -> P n.

Lemma Node_induction : forall n, P n.
Proof.
  fix IH 1. intros [t cs|c|c r l|r l|r l|r l].
  - apply Htag. induction cs as [|c cs IHcs]; constructor.
    + apply IH.
    + exact IHcs.
  - apply Hleaf; discriminate.
  - apply Hleaf; discriminate.
  - apply Hleaf; discriminate.
  - apply Hleaf; discriminate.
  - apply Hleaf; discriminate.
Qed.

End NodeInduction.

Section WalkEquations.

Context {St : Type} (v : Visitor St).

Lemma traverse_Tag :
  forall p t cs s,
    traverse v p (Tag t cs) s
    = (onTagExit v p t cs (fst (traverseChildren v p cs 0%nat (onTag v p t cs s))),
       (p, s) :: snd (traverseChildren v p cs 0%nat (onTag v p t cs s))).
Proof.
  intros p t cs s. cbn [traverse].
  set (each := fix each (l : list Node) (i : nat) (s0 : St) {struct l}
                 : St * list (Path * St) :=
                 match l with
                 | [] => (s0, [])
                 | c :: rest =>
                     let '(s', ev1) := traverse v (p ++ [i]) c s0 in
                     let '(s'', ev2) := each rest (S i) s' in
                     (s'', ev1 ++ ev2)
                 end).
  assert (E : forall l i s0, each l i s0 = traverseChildren v p l i s0).
  { induction l as [|c rest IH]; intros i s0; [reflexivity|].
    cbn [traverseChildren]. subst each. cbn beta iota.
    destruct (traverse v (p ++ [i]) c s0) as [s' ev1]. now rewrite IH. }
  rewrite E. now destruct (traverseChildren v p cs 0%nat (onTag v p t cs s)).
Qed.

Lemma traverse_leaf :
  forall p n s, (forall t cs, n <> Tag t cs) -> traverse v p n s = (s, []).
Proof.
  intros p n s H. destruct n; try reflexivity. now destruct (H t l).
Qed.

Lemma traverseChildren_cons :
  forall p c rest i s,
    traverseChildren v p (c :: rest) i s
    = (fst (traverseChildren v p rest (S i) (fst (traverse v (p ++ [i]) c s))),
       snd (traverse v (p ++ [i]) c s)
       ++ snd (traverseChildren v p rest (S i)
                                (fst (traverse v (p ++ [i]) c s)))).
Proof.
  intros p c rest i s. cbn [traverseChildren].
  destruct (traverse v (p ++ [i]) c s) as [s' ev1]. cbn [fst snd].
  now destruct (traverseChildren v p rest (S i) s').
Qed.

End WalkEquations.

(** ** The closing-tag rule: the foreign context along a walk *)

Lemma top_snoc :
  forall stack entry, RequireClosingTags.top (stack ++ [entry]) = Some entry.
Proof.
  intros stack entry. unfold RequireClosingTags.top.
  rewrite length_app, Nat.add_sub. cbn [List.length].
  rewrite nth_error_app2 by lia. now rewrite Nat.sub_diag.
Qed.

Lemma top_In :
  forall stack entry, RequireClosingTags.top stack = Some entry -> In entry stack.
Proof. intros stack entry H. eapply nth_error_In; exact H. Qed.

Section ClosingTagWalk.

Variables (VOID : list string) (options : list RequireClosingTags.Options).

Local Abbreviation V := (RequireClosingTags.visitor VOID options).

Lemma Tag_enter_stack :
  forall t cs s,
    RequireClosingTags.foreignContext
      (RequireClosingTags.Tag_enter VOID options t cs s)
    = RequireClosingTags.foreignContext s
      ++ (if isForeignName (name t) then [name t] else []).
Proof.
  intros t cs s. unfold RequireClosingTags.Tag_enter, isForeignName.
  cbn [RequireClosingTags.foreignContext].
  destruct (JS.includes _ (name t)); [reflexivity | now rewrite app_nil_r].
Qed.

Lemma Tag_enter_reports :
  forall t cs s,
    (List.length
       (RequireClosingTags.reports
          (RequireClosingTags.Tag_enter VOID options t cs s))
     <= List.length (RequireClosingTags.reports s) + 1)%nat.
Proof.
  intros t cs s. unfold RequireClosingTags.Tag_enter.
  cbn [RequireClosingTags.reports]. rewrite length_app.
  pose proof (checkTag_length VOID options t cs
                              (RequireClosingTags.foreignContext s)).
  lia.
Qed.

Lemma Tag_exit_reports :
  forall t s,
    RequireClosingTags.reports (RequireClosingTags.Tag_exit t s)
    = RequireClosingTags.reports s.
Proof.
  intros t s. unfold RequireClosingTags.Tag_exit.
  destruct (RequireClosingTags.top _); [|reflexivity].
  destruct (String.eqb _ _); reflexivity.
Qed.

(** Exiting a tag undoes what entering it did to the stack. *)
Lemma Tag_exit_stack :
  forall t s stack,
    foreignOnly stack ->
    RequireClosingTags.foreignContext s
    = stack ++ (if isForeignName (name t) then [name t] else []) ->
    RequireClosingTags.foreignContext (RequireClosingTags.Tag_exit t s)
    = stack.
Proof.
  intros t s stack Hinv Hs. unfold RequireClosingTags.Tag_exit.
  destruct (isForeignName (name t)) eqn:Ef.
  - rewrite Hs, top_snoc, String.eqb_refl.
    cbn [RequireClosingTags.foreignContext]. apply removelast_last.
  - rewrite app_nil_r in Hs. rewrite Hs.
    destruct (RequireClosingTags.top stack) as [entry|] eqn:Et; [|exact Hs].
    destruct (String.eqb (name t) entry) eqn:Ee; [|exact Hs].
    apply String.eqb_eq in Ee. subst entry.
    apply top_In in Et.
    unfold foreignOnly in Hinv. rewrite Forall_forall in Hinv.
    apply Hinv in Et. congruence.
Qed.

Lemma walkedChildren_of :
  forall l, Forall (walked VOID options) l -> walkedChildren VOID options l.
Proof.
  induction 1 as [|c rest Hc Hrest IH]; intros p i s Hinv.
  - cbn [traverseChildren fst snd]. repeat split.
    + intros q sq [].
    + intros j c r t cs H. destruct j; discriminate.
    + cbn; lia.
  - rewrite traverseChildren_cons. cbn [fst snd].
    destruct (Hc (p ++ [i]) s Hinv) as (Hc1 & Hc2 & Hc3 & Hc4).
    set (s' := fst (traverse V (p ++ [i]) c s)) in *.
    assert (Hinv' : foreignOnly (RequireClosingTags.foreignContext s'))
      by now rewrite Hc1.
    destruct (IH p (S i) s' Hinv') as (Hr1 & Hr2 & Hr3 & Hr4).
    repeat split.
    + now rewrite Hr1.
    + intros q sq Hin. apply in_app_or in Hin. destruct Hin as [Hin|Hin].
      * destruct (Hc2 _ _ Hin) as (r & t & cs & -> & Hd & Hs).
        exists 0%nat, c, r, t, cs. rewrite Nat.add_0_r, <- app_assoc.
        now repeat split.
      * destruct (Hr2 _ _ Hin) as (j & c' & r & t & cs & Hn & -> & Hd & Hs).
        exists (S j), c', r, t, cs.
        rewrite Nat.add_succ_r. rewrite Hc1 in Hs. now repeat split.
    + intros j c' r t cs Hn Hd. destruct j as [|j].
      * cbn in Hn. injection Hn as <-.
        destruct (Hc3 _ _ _ Hd) as [sq Hin]. exists sq.
        apply in_or_app. left.
        now rewrite Nat.add_0_r, <- app_assoc in *.
      * cbn in Hn. destruct (Hr3 _ _ _ _ _ Hn Hd) as [sq Hin]. exists sq.
        apply in_or_app. right. now rewrite Nat.add_succ_r.
    + rewrite length_app. lia.
Qed.

Lemma walked_all : forall n, walked VOID options n.
Proof.
  apply Node_induction.
  - intros t cs Hcs p s Hinv. apply walkedChildren_of in Hcs.
    rewrite traverse_Tag. cbn [fst snd].
    change (onTag V p t cs s)
      with (RequireClosingTags.Tag_enter VOID options t cs s).
    set (s1 := RequireClosingTags.Tag_enter VOID options t cs s).
    assert (Hs1 : RequireClosingTags.foreignContext s1
                  = RequireClosingTags.foreignContext s
                    ++ (if isForeignName (name t) then [name t] else []))
      by apply Tag_enter_stack.
    assert (Hinv1 : foreignOnly (RequireClosingTags.foreignContext s1)).
    { rewrite Hs1. apply Forall_app. split; [exact Hinv|].
      destruct (isForeignName (name t)) eqn:Ef; repeat constructor.
      exact Ef. }
    destruct (Hcs p 0%nat s1 Hinv1) as (H1 & H2 & H3 & H4).
    change (onTagExit V p t cs (fst (traverseChildren V p cs 0%nat s1)))
      with (RequireClosingTags.Tag_exit
              t (fst (traverseChildren V p cs 0%nat s1))).
    repeat split.
    + apply Tag_exit_stack; [exact Hinv|]. now rewrite H1.
    + intros q sq [Heq|Hin].
      * injection Heq as <- <-. exists [], t, cs.
        rewrite !app_nil_r. now repeat split.
      * destruct (H2 _ _ Hin) as (j & c & r & t' & cs' & Hn & -> & Hd & Hs).
        exists (j :: r), t', cs'. cbn [descend foreignBelow Nat.add].
        rewrite Hn. repeat split; [exact Hd|].
        now rewrite Hs, Hs1, <- app_assoc.
    + intros r t' cs' Hd. destruct r as [|j r].
      * exists s. left. now rewrite app_nil_r.
      * cbn [descend] in Hd.
        destruct (nth_error cs j) as [c|] eqn:Hn; [|discriminate].
        destruct (H3 _ _ _ _ _ Hn Hd) as [sq Hin]. exists sq. now right.
    + rewrite Tag_exit_reports. cbn [List.length].
      pose proof (Tag_enter_reports t cs s) as Hrep. fold s1 in Hrep. lia.
  - intros n Hleaf p s Hinv. rewrite (traverse_leaf V p n s Hleaf).
    cbn [fst snd]. repeat split.
    + intros q sq [].
    + intros r t cs Hd. destruct r as [|j r].
      * cbn in Hd. injection Hd as ->. now destruct (Hleaf t cs).
      * destruct n; try discriminate. now destruct (Hleaf t0 l).
    + cbn; lia.
Qed.

End ClosingTagWalk.

Lemma foreignBelow_nonempty :
  forall r n,
    foreignBelow r n <> []
    <-> exists r1 r2 t cs,
        r = r1 ++ r2 /\ r2 <> [] /\ descend r1 n = Some (Tag t cs)
        /\ isForeignName (name t) = true.
Proof.
  induction r as [|i r IH]; intro n.
  - cbn [foreignBelow]. split; [now intros []|].
    intros (r1 & r2 & t & cs & Hr & Hne & _).
    symmetry in Hr. apply app_eq_nil in Hr. now destruct Hr as [_ ->].
  - split.
    + intro H. destruct n as [t cs| | | | |]; try now destruct H.
      cbn [foreignBelow] in H.
      destruct (isForeignName (name t)) eqn:Ef.
      * exists [], (i :: r), t, cs. repeat split; [discriminate | exact Ef].
      * destruct (nth_error cs i) as [c|] eqn:Hn; [|now destruct H].
        apply IH in H. destruct H as (r1 & r2 & t' & cs' & -> & Hne & Hd & Hf).
        exists (i :: r1), r2, t', cs'. cbn [descend]. rewrite Hn.
        now repeat split.
    + intros (r1 & r2 & t & cs & Hr & Hne & Hd & Hf).
      destruct r1 as [|j r1].
      * cbn in Hd. injection Hd as ->. cbn [foreignBelow]. rewrite Hf.
        discriminate.
      * cbn [app] in Hr. injection Hr as <- ->.
        destruct n as [t0 cs0| | | | |]; try discriminate.
        cbn [descend] in Hd. cbn [foreignBelow].
        destruct (nth_error cs0 i) as [c|] eqn:Hn; [|discriminate].
        assert (Hc : foreignBelow (r1 ++ r2) c <> []).
        { apply IH. now exists r1, r2, t, cs. }
        intro Habs. apply app_eq_nil in Habs. now destruct Habs.
Qed.

(** ** The closing-tag rule against the stack of identified entries *)

Lemma samePath_eq :
  forall p q, ForeignContextByIdentity.samePath p q = true <-> p = q.
Proof.
  induction p as [|i p IH]; intros [|j q]; cbn; split; intro H;
    try reflexivity; try discriminate.
  - apply andb_true_iff in H. destruct H as [Hi Hp].
    apply Nat.eqb_eq in Hi. apply IH in Hp. now subst.
  - injection H as -> ->. rewrite Nat.eqb_refl. now apply IH.
Qed.

Lemma strictlyAbove_foreignOnly :
  forall p st, strictlyAbove p st -> foreignOnly (map snd st).
Proof.
  intros p st H. unfold foreignOnly. apply Forall_map.
  eapply Forall_impl; [|exact H]. now intros e [_ He].
Qed.

Lemma identity_exit :
  forall p t cs st,
    strictlyAbove p st ->
    ForeignContextByIdentity.exit p t cs
      (ForeignContextByIdentity.enter p t cs st) = st.
Proof.
  intros p t cs st Habove.
  unfold ForeignContextByIdentity.exit, ForeignContextByIdentity.enter.
  destruct (isForeignName (name t)).
  - rewrite length_app, Nat.add_sub. cbn [List.length].
    rewrite nth_error_app2 by lia. rewrite Nat.sub_diag. cbn [nth_error].
    rewrite (proj2 (samePath_eq p p) eq_refl). apply removelast_last.
  - destruct (nth_error st (List.length st - 1)) as [[q nm]|] eqn:Et;
      [|reflexivity].
    destruct (ForeignContextByIdentity.samePath q p) eqn:Es; [|reflexivity].
    apply samePath_eq in Es. subst q. apply nth_error_In in Et.
    unfold strictlyAbove in Habove. rewrite Forall_forall in Habove.
    destruct (Habove _ Et) as [(r & Hne & Hr) _]. cbn [fst] in Hr.
    rewrite <- (app_nil_r p) in Hr at 1. apply app_inv_head in Hr.
    now subst r.
Qed.

Section Refinement.

Variables (VOID : list string) (options : list RequireClosingTags.Options).

Local Abbreviation V := (RequireClosingTags.visitor VOID options).
Local Abbreviation VI := ForeignContextByIdentity.visitor.

Lemma refines_children :
  forall l,
    Forall (fun n =>
              forall p s st,
                mirrors s st -> strictlyAbove p st ->
                fst (traverse VI p n st) = st
                /\ mirrors (fst (traverse V p n s)) st
                /\ Forall2 sameEvent (snd (traverse V p n s))
                           (snd (traverse VI p n st))) l ->
    forall p i s st,
      mirrors s st -> atOrAbove p st ->
      fst (traverseChildren VI p l i st) = st
      /\ mirrors (fst (traverseChildren V p l i s)) st
      /\ Forall2 sameEvent (snd (traverseChildren V p l i s))
                 (snd (traverseChildren VI p l i st)).
Proof.
  induction 1 as [|c rest Hc Hrest IH]; intros p i s st Hm Ha.
  - cbn. repeat split; [exact Hm | constructor].
  - rewrite !traverseChildren_cons. cbn [fst snd].
    assert (Hstrict : strictlyAbove (p ++ [i]) st).
    { eapply Forall_impl; [|exact Ha]. intros e [[r Hr] He]. split; [|exact He].
      exists (r ++ [i]). split; [now destruct r|].
      now rewrite Hr, <- app_assoc. }
    destruct (Hc (p ++ [i]) s st Hm Hstrict) as (H1 & H2 & H3).
    rewrite H1.
    destruct (IH p (S i) _ st H2 Ha) as (H4 & H5 & H6).
    repeat split; [exact H4 | exact H5 | now apply Forall2_app].
Qed.

Lemma refines_node :
  forall n p s st,
    mirrors s st -> strictlyAbove p st ->
    fst (traverse VI p n st) = st
    /\ mirrors (fst (traverse V p n s)) st
    /\ Forall2 sameEvent (snd (traverse V p n s)) (snd (traverse VI p n st)).
Proof.
  intro n. pattern n. apply Node_induction; clear n.
  - intros t cs Hcs p s st Hm Ha.
    rewrite !traverse_Tag. cbn [fst snd].
    change (onTag V p t cs s)
      with (RequireClosingTags.Tag_enter VOID options t cs s).
    change (onTag VI p t cs st)
      with (ForeignContextByIdentity.enter p t cs st).
    set (s1 := RequireClosingTags.Tag_enter VOID options t cs s).
    set (st1 := ForeignContextByIdentity.enter p t cs st).
    assert (Hm1 : mirrors s1 st1).
    { unfold mirrors, s1, st1, ForeignContextByIdentity.enter.
      rewrite Tag_enter_stack, Hm.
      destruct (isForeignName (name t));
        [now rewrite map_app | now rewrite app_nil_r]. }
    assert (Ha1 : atOrAbove p st1).
    { unfold atOrAbove, st1, ForeignContextByIdentity.enter.
      assert (Hst : Forall (fun entry => (exists r, p = fst entry ++ r)
                                         /\ isForeignName (snd entry) = true)
                           st).
      { eapply Forall_impl; [|exact Ha].
        intros e [(r & _ & Hr) He]. split; [now exists r | exact He]. }
      destruct (isForeignName (name t)) eqn:Ef; [|exact Hst].
      apply Forall_app. split; [exact Hst|].
      repeat constructor; [|exact Ef]. exists []. cbn. now rewrite app_nil_r. }
    destruct (refines_children cs Hcs p 0%nat s1 st1 Hm1 Ha1) as (H1 & H2 & H3).
    change (onTagExit VI p t cs (fst (traverseChildren VI p cs 0%nat st1)))
      with (ForeignContextByIdentity.exit
              p t cs (fst (traverseChildren VI p cs 0%nat st1))).
    change (onTagExit V p t cs (fst (traverseChildren V p cs 0%nat s1)))
      with (RequireClosingTags.Tag_exit
              t (fst (traverseChildren V p cs 0%nat s1))).
    rewrite H1. repeat split.
    + now apply identity_exit.
    + unfold mirrors. apply Tag_exit_stack.
      * now apply strictlyAbove_foreignOnly with p.
      * rewrite H2. unfold st1, ForeignContextByIdentity.enter.
        destruct (isForeignName (name t));
          [now rewrite map_app | now rewrite app_nil_r].
    + constructor; [now split | exact H3].
  - intros n Hleaf p s st Hm Ha. rewrite !traverse_leaf by exact Hleaf.
    cbn. repeat split; [exact Hm | constructor].
Qed.

End Refinement.

Lemma walked_document :
  forall VOID options doc,
    walkedChildren VOID options doc.
Proof.
  intros VOID options doc. apply walkedChildren_of.
  apply Forall_forall. intros n _. apply walked_all.
Qed.

(** C4.  The foreign names are svg and math, and the rule pushes the tag
    name on entering a tag with such a name.
    Over the walk of a document: every tag is entered; when a tag is
    entered the stack is non-empty exactly when the tag has a proper
    ancestor named svg or math; the stack is empty again after the walk;
    and at every enter event, and at the end, the stack holds the names of
    the stack of identified entries, which is popped only on exiting the
    very tag that pushed its top entry. *)
Theorem foreignContext_follows_ancestors :
  forall VOID options doc,
    (forall tagName,
        isForeignName tagName = true
        <-> tagName = "svg"%string \/ tagName = "math"%string)
    /\ (forall t cs s,
        RequireClosingTags.foreignContext
          (RequireClosingTags.Tag_enter VOID options t cs s)
        = if isForeignName (name t)
          then RequireClosingTags.foreignContext s ++ [name t]
          else RequireClosingTags.foreignContext s)
    /\ (forall p t cs,
           nodeAt doc p = Some (Tag t cs) ->
           exists s, In (p, s) (snd (RequireClosingTags.run VOID options doc)))
    /\ (forall p s,
           In (p, s) (snd (RequireClosingTags.run VOID options doc)) ->
           (exists t cs, nodeAt doc p = Some (Tag t cs))
           /\ (RequireClosingTags.foreignContext s <> []
               <-> hasForeignAncestor doc p))
    /\ RequireClosingTags.foreignContext
         (fst (RequireClosingTags.run VOID options doc)) = []
    /\ Forall2 sameEvent
               (snd (RequireClosingTags.run VOID options doc))
               (snd (ForeignContextByIdentity.run doc))
    /\ mirrors (fst (RequireClosingTags.run VOID options doc))
               (fst (ForeignContextByIdentity.run doc)).
Proof.
  intros VOID options doc.
  unfold RequireClosingTags.run, ForeignContextByIdentity.run, traverseDocument.
  destruct (walked_document VOID options doc [] 0%nat RequireClosingTags.initial
                            (Forall_nil _)) as (H1 & H2 & H3 & _).
  split; [|split; [|split; [|split; [|split]]]].
  - intro tagName. unfold isForeignName. rewrite includes_In. cbn [In].
    intuition congruence.
  - intros t cs s. rewrite Tag_enter_stack.
    destruct (isForeignName (name t)); [reflexivity | apply app_nil_r].
  - intros p t cs Hp. destruct p as [|j r]; [discriminate|].
    cbn [nodeAt] in Hp.
    destruct (nth_error doc j) as [c|] eqn:Hn; [|discriminate].
    exact (H3 j c r t cs Hn Hp).
  - intros p s Hin.
    destruct (H2 _ _ Hin) as (j & c & r & t & cs & Hn & -> & Hd & Hs).
    cbn [app Nat.add RequireClosingTags.initial
             RequireClosingTags.foreignContext] in *.
    split.
    + exists t, cs. cbn [nodeAt]. now rewrite Hn.
    + rewrite Hs, foreignBelow_nonempty. unfold hasForeignAncestor. split.
      * intros (r1 & r2 & t' & cs' & -> & Hne & Hd' & Hf).
        exists (j :: r1), r2, t', cs'. cbn [nodeAt]. rewrite Hn.
        now repeat split.
      * intros (q & r2 & t' & cs' & Hq & Hne & Hat & Hf).
        destruct q as [|j' r1]; [discriminate|].
        cbn [app] in Hq. injection Hq as <- ->.
        cbn [nodeAt] in Hat. rewrite Hn in Hat.
        now exists r1, r2, t', cs'.
  - exact H1.
  - assert (Hall : Forall (fun n =>
                     forall p s st,
                       mirrors s st -> strictlyAbove p st ->
                       fst (traverse ForeignContextByIdentity.visitor p n st)
                       = st
                       /\ mirrors
                            (fst (traverse
                                    (RequireClosingTags.visitor VOID options)
                                    p n s)) st
                       /\ Forall2 sameEvent
                            (snd (traverse
                                    (RequireClosingTags.visitor VOID options)
                                    p n s))
                            (snd (traverse ForeignContextByIdentity.visitor
                                           p n st))) doc).
    { apply Forall_forall. intros n _ p s st. apply refines_node. }
    destruct (refines_children VOID options doc Hall [] 0%nat
                               RequireClosingTags.initial []
                               eq_refl (Forall_nil _)) as (E1 & E2 & E3).
    split; [exact E3|]. now rewrite E1.
Qed.

(** [<img />] under [{ selfClosing: "never" }] is rewritten to [<img>]. *)
Example img_never :
  RequireClosingTags.checkTag Samples.VOID_ELEMENTS [Samples.optNever]
                              Samples.imgSelfClosed [] []
  = [ {| report_range := (5, 7);
         report_loc := Samples.at_ 1 5 7;
         report_tag := "img";
         messageId := RequireClosingTags.UNEXPECTED;
         report_fix := Some (Return (Some [ReplaceRange (5, 7) ">"])) |} ].
Proof.
  exact (unexpected_fix_for_void Samples.VOID_ELEMENTS [Samples.optNever]
                                 Samples.imgSelfClosed [] []
                                 eq_refl eq_refl eq_refl).
Qed.

(** [<my-el/>] under [{ selfClosing: "always", allowSelfClosingCustom: true }]
    is accepted by the first listing. *)
Example myEl_always :
  RequireClosingTags.checkTag Samples.VOID_ELEMENTS [Samples.optAlwaysCustom]
                              Samples.myEl [] [] = [].
Proof. reflexivity. Qed.

(** C9.  One call of the [Tag] callback reports at most one diagnostic:
    [checkVoidElement] never reports both MISSING_SELF and UNEXPECTED, and
    MISSING is reported only when the self-close check did not run, that is
    when the tag is neither written self-closing nor able to self-close.
    Over the walk of a document there are at most as many diagnostics as
    tags entered. *)
Theorem closing_tag_at_most_one_report :
  forall VOID options node children stack doc,
    (forall should fixable,
        (List.length (RequireClosingTags.checkVoidElement node should fixable)
         <= 1)%nat
        /\ ~ (In RequireClosingTags.MISSING_SELF
                 (map messageId
                      (RequireClosingTags.checkVoidElement node should fixable))
              /\ In RequireClosingTags.UNEXPECTED
                    (map messageId
                         (RequireClosingTags.checkVoidElement node should
                                                              fixable))))
    /\ (List.length
          (RequireClosingTags.checkTag VOID options node children stack)
        <= 1)%nat
    /\ (forall r,
           In r (RequireClosingTags.checkTag VOID options node children stack) ->
           messageId r = RequireClosingTags.MISSING ->
           selfClosing node
           || RequireClosingTags.canSelfClose VOID options node children stack
           = false)
    /\ (List.length
          (RequireClosingTags.reports
             (fst (RequireClosingTags.run VOID options doc)))
        <= List.length (snd (RequireClosingTags.run VOID options doc)))%nat.
Proof.
  intros VOID options node children stack doc. split; [|split; [|split]].
  - intros should fixable. split; [apply checkVoidElement_length|].
    unfold RequireClosingTags.checkVoidElement.
    destruct should, (String.eqb (token_value (openEnd node)) "/>"); cbn;
      intros [H1 H2]; intuition discriminate.
  - apply checkTag_length.
  - intros r Hin Hid. unfold RequireClosingTags.checkTag in Hin.
    destruct (selfClosing node
              || RequireClosingTags.canSelfClose VOID options node children
                                                 stack); [|reflexivity].
    now apply checkVoidElement_not_missing in Hin.
  - unfold RequireClosingTags.run, traverseDocument.
    destruct (walked_document VOID options doc [] 0%nat
                              RequireClosingTags.initial (Forall_nil _))
      as (_ & _ & _ & H4).
    exact H4.
Qed.

(** ** The newline rule *)

(** The result tabulated for a tag is that of the recursive call
    [checkSiblings(node.children)]. *)
Lemma checkChildren_Tag :
  forall options t cs,
    ElementNewline.checkChildren options (Tag t cs)
    = ElementNewline.checkSiblings options cs.
Proof. reflexivity. Qed.

Section NewlineLoop.

Variable options : list ElementNewline.Options.

Local Abbreviation entries :=
  (list (Node * (ElementNewline.NodeMeta * list Report))).

(** What one round of the loop contributes for a tag: the diagnostics of
    its children and its own open/close checks, unless the tag is skipped. *)
Lemma forEachNode_cons :
  forall node nodeMeta inner (rest : entries) meta,
  exists meta2,
    snd (ElementNewline.forEachNode options
           ((node, (nodeMeta, inner)) :: rest) meta)
    = match node with
      | Tag t _ =>
          if negb (JS.includes (ElementNewline.skipTags options) (name t))
          then inner
               ++ ElementNewline.openCloseReports
                    node t (ElementNewline.shouldBeNewline options node)
                    nodeMeta
          else []
      | _ => []
      end
      ++ match rest with
         | (next, _) :: _ => ElementNewline.pairReports options node next
         | [] => []
         end
      ++ snd (ElementNewline.forEachNode options rest meta2).
Proof.
  intros node nodeMeta inner rest meta.
  cbn [ElementNewline.forEachNode].
  destruct node as [t cs|c|c r l|r l|r l|r l];
    [destruct (negb (JS.includes (ElementNewline.skipTags options) (name t)))
    | | | | |];
    match goal with
    | |- context [ElementNewline.forEachNode options rest ?m] => exists m
    end;
    destruct (ElementNewline.forEachNode options rest _) as [metaN outN];
    cbn [snd]; destruct rest as [|[next x] rest']; reflexivity.
Qed.

Lemma forEachNode_pair :
  forall (nodes : entries) meta i node next,
    nth_error (map fst nodes) i = Some node ->
    nth_error (map fst nodes) (S i) = Some next ->
    incl (ElementNewline.pairReports options node next)
         (snd (ElementNewline.forEachNode options nodes meta)).
Proof.
  induction nodes as [|[n [m inner]] rest IH]; intros meta i node next Hi Hn.
  - destruct i; discriminate.
  - destruct (forEachNode_cons n m inner rest meta) as [meta2 ->].
    destruct i as [|i].
    + cbn in Hi. injection Hi as ->.
      destruct rest as [|[next' x] rest']; [discriminate|].
      cbn in Hn. injection Hn as ->.
      intros r Hr. apply in_or_app. right. apply in_or_app. now left.
    + cbn [map nth_error] in Hi, Hn.
      intros r Hr. apply in_or_app. right. apply in_or_app. right.
      exact (IH meta2 i node next Hi Hn r Hr).
Qed.

Lemma forEachNode_inner :
  forall (nodes : entries) meta t cs m inner,
    In (Tag t cs, (m, inner)) nodes ->
    JS.includes (ElementNewline.skipTags options) (name t) = false ->
    incl inner (snd (ElementNewline.forEachNode options nodes meta)).
Proof.
  induction nodes as [|[n [m' inner']] rest IH];
    intros meta t cs m inner Hin Hskip.
  - destruct Hin.
  - destruct (forEachNode_cons n m' inner' rest meta) as [meta2 ->].
    destruct Hin as [Heq|Hin].
    + injection Heq as -> -> ->. rewrite Hskip. cbn [negb].
      intros r Hr. apply in_or_app. left. apply in_or_app. now left.
    + intros r Hr. apply in_or_app. right. apply in_or_app. right.
      exact (IH meta2 t cs m inner Hin Hskip r Hr).
Qed.

Lemma tabulated_nodes :
  forall (f : Node -> ElementNewline.NodeMeta * list Report) siblings,
    map fst (filter (fun entry => negb (ElementNewline.isEmptyText (fst entry)))
                    (map (fun c => (c, f c)) siblings))
    = ElementNewline.nodesWithContent siblings.
Proof.
  intros f siblings. unfold ElementNewline.nodesWithContent.
  induction siblings as [|c rest IH]; [reflexivity|].
  cbn [map filter fst].
  destruct (negb (ElementNewline.isEmptyText c)); cbn [map fst]; now rewrite IH.
Qed.

Lemma checkSiblings_pair :
  forall siblings i node next,
    nth_error (ElementNewline.nodesWithContent siblings) i = Some node ->
    nth_error (ElementNewline.nodesWithContent siblings) (S i) = Some next ->
    incl (ElementNewline.pairReports options node next)
         (snd (ElementNewline.checkSiblings options siblings)).
Proof.
  intros siblings i node next Hi Hn.
  unfold ElementNewline.checkSiblings, ElementNewline.checkSiblingsWith.
  apply forEachNode_pair with i; now rewrite tabulated_nodes.
Qed.

Lemma checkSiblings_children :
  forall siblings t cs,
    In (Tag t cs) siblings ->
    JS.includes (ElementNewline.skipTags options) (name t) = false ->
    incl (snd (ElementNewline.checkSiblings options cs))
         (snd (ElementNewline.checkSiblings options siblings)).
Proof.
  intros siblings t cs Hin Hskip.
  unfold ElementNewline.checkSiblings at 2.
  unfold ElementNewline.checkSiblingsWith.
  destruct (ElementNewline.checkSiblings options cs) as [m inner] eqn:E.
  cbn [snd]. apply forEachNode_inner with t cs m; [|exact Hskip].
  apply filter_In. split; [|reflexivity].
  apply in_map_iff. exists (Tag t cs). split; [|exact Hin].
  f_equal. exact E.
Qed.

Lemma checkSiblings_skipped :
  forall t cs,
    JS.includes (ElementNewline.skipTags options) (name t) = true ->
    snd (ElementNewline.checkSiblings options [Tag t cs]) = [].
Proof.
  intros t cs Hskip.
  unfold ElementNewline.checkSiblings, ElementNewline.checkSiblingsWith.
  cbn [map filter fst ElementNewline.isEmptyText negb].
  destruct (ElementNewline.checkChildren options (Tag t cs)) as [m inner].
  destruct (forEachNode_cons (Tag t cs) m inner [] ElementNewline.emptyMeta)
    as [meta2 ->].
  now rewrite Hskip.
Qed.

End NewlineLoop.

Lemma pairReports_meeting :
  forall options node next,
    line (loc_end (nodeLoc node)) = line (loc_start (nodeLoc next)) ->
    ElementNewline.pairReports options node next
    = if ElementNewline.shouldBeNewline options node
      then if ElementNewline.isNotNewlineStart next
           then [expectAfter node next] else []
      else if ElementNewline.shouldBeNewline options next
              && ElementNewline.isNotNewlineEnd node
           then [expectBefore next] else [].
Proof.
  intros options node next Hline. unfold ElementNewline.pairReports.
  rewrite Hline, Z.eqb_refl.
  destruct (ElementNewline.shouldBeNewline options node); [reflexivity|].
  destruct (ElementNewline.shouldBeNewline options next); reflexivity.
Qed.

(** C6 (as the code has it).  For two neighbours among the nodes with
    content of a sibling group, the earlier ending on the line on which the
    later starts: if the earlier wants a newline, EXPECT_NEW_LINE_AFTER is
    reported exactly when the later does not start with a line break, and
    the pair gets nothing else; if the earlier does not want a newline,
    EXPECT_NEW_LINE_BEFORE is reported exactly when the later wants one and
    the earlier does not end with a line break.  What the pair check
    reports is among the diagnostics of the group; the first fix inserts a
    line break after the earlier node, the second before the later node.
    With inline = ["$inline"], the one-line
    [<p><b>x</b><div>y</div></p>] gets EXPECT_NEW_LINE_BEFORE for the div,
    with the fix that inserts a line break before the div. *)
Theorem sibling_pair_diagnostics :
  forall options siblings i node next,
    nth_error (ElementNewline.nodesWithContent siblings) i = Some node ->
    nth_error (ElementNewline.nodesWithContent siblings) (S i) = Some next ->
    line (loc_end (nodeLoc node)) = line (loc_start (nodeLoc next)) ->
    ElementNewline.pairReports options node next
    = (if ElementNewline.shouldBeNewline options node
       then if ElementNewline.isNotNewlineStart next
            then [expectAfter node next] else []
       else if ElementNewline.shouldBeNewline options next
               && ElementNewline.isNotNewlineEnd node
            then [expectBefore next] else [])
    /\ incl (ElementNewline.pairReports options node next)
            (snd (ElementNewline.checkSiblings options siblings))
    /\ (ElementNewline.shouldBeNewline options node = true ->
        ElementNewline.isNotNewlineStart next = true ->
        In (expectAfter node next)
           (snd (ElementNewline.checkSiblings options siblings)))
    /\ (ElementNewline.shouldBeNewline options node = false ->
        ElementNewline.shouldBeNewline options next = true ->
        ElementNewline.isNotNewlineEnd node = true ->
        In (expectBefore next)
           (snd (ElementNewline.checkSiblings options siblings)))
    /\ report_fix (expectAfter node next)
       = Some (Return (Some [InsertAfter (nodeRange node)
                                         (String JS.LF EmptyString)]))
    /\ report_fix (expectBefore next)
       = Some (Return (Some [InsertBefore (nodeRange next)
                                          (String JS.LF EmptyString)]))
    /\ In (expectBefore Samples.division)
          (ElementNewline.run [Samples.optInlinePreset] Samples.paragraph).
Proof.
  intros options siblings i node next Hi Hn Hline.
  pose proof (pairReports_meeting options node next Hline) as Hpair.
  pose proof (checkSiblings_pair options siblings i node next Hi Hn) as Hincl.
  split; [exact Hpair|]. split; [exact Hincl|].
  split; [|split; [|split; [|split]]].
  - intros Hw Hs. apply Hincl. rewrite Hpair, Hw, Hs. now left.
  - intros Hw Hw' He. apply Hincl. rewrite Hpair, Hw, Hw', He. now left.
  - reflexivity.
  - reflexivity.
  - vm_compute. left. reflexivity.
Qed.

(** The children of the paragraph: [<b>x</b>] is inline, [<div>] is not. *)
Lemma sibling_pair_diagnostics_witness :
  In (expectBefore Samples.division)
     (snd (ElementNewline.checkSiblings [Samples.optInlinePreset]
                                        [Samples.bold; Samples.division])).
Proof.
  exact (proj1 (proj2 (proj2 (proj2
           (sibling_pair_diagnostics
              [Samples.optInlinePreset] [Samples.bold; Samples.division]
              0%nat Samples.bold Samples.division eq_refl eq_refl eq_refl))))
           eq_refl eq_refl eq_refl).
Defined.

(** C6 (as stated) fails: for [<div></div>] followed on its line by a text
    that starts with a line break and spans several lines, the first
    condition does not hold (the text starts with a line break), the later
    node wants a newline and the earlier does not end with one, so the
    sentence asks for EXPECT_NEW_LINE_BEFORE; the rule reports nothing. *)
Lemma pair_reports_not_as_stated :
  ElementNewline.nodesWithContent Samples.divThenText
  = [Samples.closedDiv; Samples.linesOfText]
  /\ line (loc_end (nodeLoc Samples.closedDiv))
     = line (loc_start (nodeLoc Samples.linesOfText))
  /\ ElementNewline.isNotNewlineStart Samples.linesOfText = false
  /\ ElementNewline.shouldBeNewline [] Samples.linesOfText = true
  /\ ElementNewline.isNotNewlineEnd Samples.closedDiv = true
  /\ pairReportsAsStated [] Samples.closedDiv Samples.linesOfText
     = [expectBefore Samples.linesOfText]
  /\ ElementNewline.pairReports [] Samples.closedDiv Samples.linesOfText = []
  /\ ElementNewline.run [] Samples.divThenText = [].
Proof. repeat split. Qed.

Lemma lowerChar_idempotent :
  forall c, JS.lowerChar (JS.lowerChar c) = JS.lowerChar c.
Proof.
  intros [[] [] [] [] [] [] [] []]; reflexivity.
Qed.

Lemma toLowerCase_idempotent :
  forall s, JS.toLowerCase (JS.toLowerCase s) = JS.toLowerCase s.
Proof.
  induction s as [|c s IH]; [reflexivity|].
  cbn [JS.toLowerCase]. now rewrite lowerChar_idempotent, IH.
Qed.

(** C10 (as the code has it).  skip is matched against the name as written:
    a tag is skipped exactly when its name is literally a skip entry, so a
    tag whose name is no skip entry (one that differs from the entries in
    letter case only, for instance) has the diagnostics of its children
    among those of its group, and a skipped tag standing alone yields
    none.  inline is matched against the lower-cased name: a tag is inline
    exactly when its lower-cased name is literally an inline entry, so a
    tag that differs in case only from a lower-case entry is inline, and an
    entry that is not in lower case equals no lower-cased name. *)
Theorem skip_exact_inline_lowercased :
  forall options t cs,
    (JS.includes (ElementNewline.skipTags options) (name t) = true
     <-> In (name t) (ElementNewline.skipTags options))
    /\ (forall siblings,
           In (Tag t cs) siblings ->
           ~ In (name t) (ElementNewline.skipTags options) ->
           incl (snd (ElementNewline.checkSiblings options cs))
                (snd (ElementNewline.checkSiblings options siblings)))
    /\ (In (name t) (ElementNewline.skipTags options) ->
        snd (ElementNewline.checkSiblings options [Tag t cs]) = [])
    /\ (ElementNewline.shouldBeNewline options (Tag t cs) = false
        <-> In (JS.toLowerCase (name t)) (ElementNewline.inlineTags options))
    /\ (forall entry,
           In entry (ElementNewline.inlineTags options) ->
           JS.toLowerCase entry = entry ->
           differInCaseOnly (name t) entry ->
           ElementNewline.shouldBeNewline options (Tag t cs) = false)
    /\ (forall entry,
           JS.toLowerCase entry <> entry ->
           JS.toLowerCase (name t) <> entry).
Proof.
  intros options t cs.
  assert (Hinline :
            ElementNewline.shouldBeNewline options (Tag t cs) = false
            <-> In (JS.toLowerCase (name t)) (ElementNewline.inlineTags options)).
  { cbn [ElementNewline.shouldBeNewline]. rewrite negb_false_iff.
    apply includes_In. }
  split; [apply includes_In|]. split; [|split; [|split; [|split]]].
  - intros siblings Hin Hskip. apply checkSiblings_children with t; [exact Hin|].
    destruct (JS.includes (ElementNewline.skipTags options) (name t)) eqn:E;
      [|reflexivity].
    apply includes_In in E. now destruct Hskip.
  - intro Hskip. apply checkSiblings_skipped. now apply includes_In.
  - exact Hinline.
  - intros entry Hin Hlow [_ Hcase]. apply Hinline.
    now rewrite Hcase, Hlow.
  - intros entry Hne Heq. apply Hne. rewrite <- Heq.
    apply toLowerCase_idempotent.
Qed.

(** Under [{ skip: ["pre"] }] a tag named PRE is not skipped: the one-line
    paragraph sample, renamed PRE, still gets the diagnostic of its
    children. *)
Example skip_is_case_sensitive :
  JS.includes (ElementNewline.skipTags [Samples.optSkipPre]) "PRE" = false
  /\ JS.includes (ElementNewline.skipTags [Samples.optSkipPre]) "pre" = true
  /\ In (expectAfter Samples.bold Samples.division)
        (snd (ElementNewline.checkSiblings
                [Samples.optSkipPre]
                [Tag {| name := "PRE"; selfClosing := false;
                        openEnd := Samples.token ">" 4 5;
                        close := Some (Samples.token "PRE" 23 29);
                        tag_range := (0, 29);
                        tag_loc := Samples.at_ 1 0 29 |}
                     [Samples.bold; Samples.division]])).
Proof.
  split; [reflexivity|]. split; [reflexivity|].
  vm_compute. left. reflexivity.
Qed.

(** C10 (as stated) fails: with inline = ["B"], the tag [<b>] differs from
    the entry in letter case only and is not classified as inline. *)
Lemma inline_entry_not_lowercased :
  differInCaseOnly "b" "B"
  /\ In "B"%string (ElementNewline.inlineTags [Samples.optInlineUpper])
  /\ ElementNewline.shouldBeNewline [Samples.optInlineUpper] Samples.bold = true.
Proof.
  repeat split.
  - discriminate.
  - now left.
Qed.

(* ================================================================== *)
(** * Further properties *)
(* ================================================================== *)

(** ** Ranges and templates *)

(** X1.  Two non-empty ranges overlap exactly when some source position
    lies in both of them. *)
Theorem isRangesOverlap_shared_position :
  forall a b : Range,
    fst a < snd a ->
    fst b < snd b ->
    (NodeUtils.isRangesOverlap a b = true
     <-> exists x, inRange x a /\ inRange x b).
Proof.
  intros [a0 a1] [b0 b1] Ha Hb. unfold NodeUtils.isRangesOverlap, inRange.
  cbn [fst snd] in *. rewrite andb_true_iff, !Z.ltb_lt. split.
  - intros [H1 H2]. exists (Z.max a0 b0). lia.
  - intros (x & Hx1 & Hx2). lia.
Qed.

Lemma isRangesOverlap_shared_position_witness :
  NodeUtils.isRangesOverlap (2, 6) (5, 9) = true
  <-> exists x, inRange x (2, 6) /\ inRange x (5, 9).
Proof.
  apply (isRangesOverlap_shared_position (2, 6) (5, 9)); reflexivity.
Defined.

Lemma shouldSkipIndentCheck_overlap :
  forall tpls r,
    NodeUtils.shouldSkipIndentCheck tpls r
    = NodeUtils.isOverlapWithTemplates tpls r.
Proof.
  intros tpls r.
  unfold NodeUtils.shouldSkipIndentCheck, NodeUtils.isOverlapWithTemplates.
  induction tpls as [|t tpls IH]; [reflexivity|].
  cbn [existsb filter]. destruct (isTemplate t); cbn [existsb andb];
    now rewrite IH.
Qed.

Lemma isOverlapWithTemplates_spec :
  forall tpls r,
    NodeUtils.isOverlapWithTemplates tpls r = true
    <-> exists t, In t tpls /\ isTemplate t = true
                  /\ NodeUtils.isRangesOverlap (template_range t) r = true.
Proof.
  intros tpls r. unfold NodeUtils.isOverlapWithTemplates.
  rewrite existsb_exists. split.
  - intros (t & Hin & Ho). apply filter_In in Hin. destruct Hin as [Hin Ht].
    now exists t.
  - intros (t & Hin & Ht & Ho). exists t. split; [|exact Ho].
    apply filter_In. now split.
Qed.

Lemma forEachLine_skip :
  forall startCol tpls values index start ln,
    Forall (fun l => skipIndentCheck l
                     = NodeUtils.isOverlapWithTemplates tpls (line_range l))
           (NodeUtils.forEachLine startCol tpls values index start ln).
Proof.
  intros startCol tpls values. induction values as [|v rest IH];
    intros index start ln; cbn [NodeUtils.forEachLine]; constructor.
  - cbn [skipIndentCheck line_range]. apply shouldSkipIndentCheck_overlap.
  - apply IH.
Qed.

(** X2.  The [skipIndentCheck] flag of every Line node is what
    [isOverlapWithTemplates] answers for the node's templates and the
    line's range: it is set exactly when a template span flagged
    [isTemplate] overlaps the line, and never when [templates] is absent. *)
Theorem lines_skipIndentCheck :
  forall node : Content,
    Forall (fun l =>
              skipIndentCheck l
              = NodeUtils.isOverlapWithTemplates
                  (match templates node with Some t => t | None => [] end)
                  (line_range l)
              /\ (skipIndentCheck l = true
                  <-> exists t tpls,
                      templates node = Some tpls /\ In t tpls
                      /\ isTemplate t = true
                      /\ NodeUtils.isRangesOverlap (template_range t)
                                                   (line_range l) = true))
           (NodeUtils.splitToLineNodes node).
Proof.
  intro node. unfold NodeUtils.splitToLineNodes.
  eapply Forall_impl; [|apply forEachLine_skip].
  intros l Hl. cbn beta in Hl. split; [exact Hl|].
  rewrite Hl, isOverlapWithTemplates_spec. split.
  - intros (t & Hin & Ht & Ho). destruct (templates node) as [tpls|].
    + now exists t, tpls.
    + destruct Hin.
  - intros (t & tpls & -> & Hin & Ht & Ho). now exists t.
Qed.

Lemma forEachLine_columns :
  forall startCol tpls values index start ln i l,
    nth_error (NodeUtils.forEachLine startCol tpls values index start ln) i
    = Some l ->
    column (loc_start (line_loc l))
    = (if Nat.eqb (index + i) 0 then startCol else 0)
    /\ column (loc_end (line_loc l))
       = column (loc_start (line_loc l)) + JS.length (line_value l).
Proof.
  intros startCol tpls values. induction values as [|v rest IH];
    intros index start ln i l H.
  - destruct i; discriminate.
  - destruct i as [|i].
    + cbn in H. injection H as <-. cbn. rewrite Nat.add_0_r. now split.
    + change (nth_error
                (NodeUtils.forEachLine startCol tpls rest (S index)
                                       (start + JS.length v + 1) (ln + 1)) i
              = Some l) in H.
      apply IH in H. now rewrite Nat.add_succ_r.
Qed.

(** X3.  Every Line node lies on one source line; the first one starts at
    the start column of the node, every later one at column 0, and each
    ends [value.length] columns after its start. *)
Theorem lines_on_one_line :
  forall (node : Content) i l,
    nth_error (NodeUtils.splitToLineNodes node) i = Some l ->
    NodeQueries.isNodeTokensOnSameLine (line_loc l) = true
    /\ column (loc_start (line_loc l))
       = (if Nat.eqb i 0 then column (loc_start (loc node)) else 0)
    /\ column (loc_end (line_loc l))
       = column (loc_start (line_loc l)) + JS.length (line_value l).
Proof.
  intros node i l H. unfold NodeUtils.splitToLineNodes in H.
  pose proof (forEachLine_nth _ _ _ _ _ _ _ _ H) as (_ & Hs & He & _).
  pose proof (forEachLine_columns _ _ _ _ _ _ _ _ H) as (Hc & Hd).
  split; [|split; [exact Hc | exact Hd]].
  unfold NodeQueries.isNodeTokensOnSameLine. rewrite Hs, He. apply Z.eqb_refl.
Qed.

Lemma lines_on_one_line_witness :
  exists l,
    nth_error (NodeUtils.splitToLineNodes Samples.twoLines) 1 = Some l
    /\ NodeQueries.isNodeTokensOnSameLine (line_loc l) = true
    /\ column (loc_start (line_loc l)) = 0.
Proof.
  eexists. split; [reflexivity|].
  pose proof (lines_on_one_line Samples.twoLines 1 _ eq_refl) as (H1 & H2 & _).
  split; [exact H1 | exact H2].
Defined.

(** ** Source lines, again *)

(** X4.  The lines of [codeToLines], put end to end, are the source text
    without its CR, LF, U+2028 and U+2029 code units: nothing else is
    dropped, nothing is added or reordered, and there is always at least
    one line. *)
Theorem codeToLines_keeps_text :
  forall source,
    List.concat (NodeUtils.codeToLines source)
    = filter (fun c => negb (NodeUtils.isLineBreakUnit c)) source
    /\ NodeUtils.codeToLines source <> [].
Proof.
  intro source. split; [|apply codeToLines_not_nil].
  assert (H : forall n src,
             (List.length src <= n)%nat ->
             List.concat (NodeUtils.codeToLines src)
             = filter (fun c => negb (NodeUtils.isLineBreakUnit c)) src).
  { induction n as [|n IH]; intros [|c rest] Hlen;
      try reflexivity; try (cbn in Hlen; lia).
    cbn [List.length] in Hlen. cbn [NodeUtils.codeToLines filter].
    destruct (NodeUtils.isLineBreakUnit c) eqn:Ec; cbn [negb].
    - destruct rest as [|c' rest']; [reflexivity|].
      destruct ((c =? NodeUtils.cuCR)%N && (c' =? NodeUtils.cuLF)%N) eqn:E.
      + apply andb_true_iff in E. destruct E as [_ E].
        apply N.eqb_eq in E. subst c'. cbn [List.concat app filter].
        change (NodeUtils.isLineBreakUnit NodeUtils.cuLF) with true.
        cbn [negb]. apply IH. cbn [List.length] in Hlen. lia.
      + cbn [List.concat app]. apply IH. lia.
    - pose proof (IH rest ltac:(lia)) as Hrest.
      destruct (NodeUtils.codeToLines rest) as [|piece pieces] eqn:E.
      + now destruct (codeToLines_not_nil rest).
      + cbn [List.concat app] in *. now rewrite Hrest. }
  now apply (H (List.length source)).
Qed.

Lemma isLineBreakUnit_ascii :
  forall c,
    NodeUtils.isLineBreakUnit (N_of_ascii c)
    = Ascii.eqb c JS.CR || Ascii.eqb c JS.LF.
Proof.
  intros [[] [] [] [] [] [] [] []]; reflexivity.
Qed.

(** X5.  On a text without carriage returns (and, code units being below
    256, without U+2028 and U+2029), [codeToLines] cuts the same lines as
    the [split("\n")] of [splitToLineNodes]. *)
Theorem codeToLines_agrees_with_split :
  forall text : string,
    holds JS.CR text = false ->
    NodeUtils.codeToLines (units text) = map units (JS.split JS.LF text).
Proof.
  induction text as [|c rest IH]; intro Hcr; [reflexivity|].
  cbn [holds] in Hcr. apply orb_false_iff in Hcr. destruct Hcr as [Hc Hrest].
  specialize (IH Hrest).
  cbn [units NodeUtils.codeToLines JS.split].
  rewrite isLineBreakUnit_ascii, Hc. cbn [orb].
  destruct (Ascii.eqb c JS.LF) eqn:El.
  - apply Ascii.eqb_eq in El. subst c.
    destruct (units rest) as [|c' rest'] eqn:Eu.
    + cbn [map]. now rewrite <- IH.
    + change ((N_of_ascii JS.LF =? NodeUtils.cuCR)%N) with false.
      cbn [andb map]. now rewrite <- IH.
  - rewrite IH. destruct (JS.split JS.LF rest) as [|piece pieces] eqn:E.
    + now destruct (split_not_nil JS.LF rest).
    + reflexivity.
Qed.

Lemma codeToLines_agrees_with_split_witness :
  NodeUtils.codeToLines (units (value Samples.twoLines))
  = map units (JS.split JS.LF (value Samples.twoLines)).
Proof.
  exact (codeToLines_agrees_with_split (value Samples.twoLines) eq_refl).
Defined.

(** ** Template tokens *)

(** X6.  [getTemplateTokens] returns exactly the spans flagged
    [isTemplate] of the tokens that carry [templates] (a token without
    them contributes nothing); it works token by token, in order; and
    [hasTemplate] of a key or value says whether its own spans yield any. *)
Theorem getTemplateTokens_flagged :
  forall tokens more t part,
    (In t (NodeQueries.getTemplateTokens tokens)
     <-> isTemplate t = true
         /\ exists token tpls,
            In token tokens /\ any_templates token = Some tpls /\ In t tpls)
    /\ NodeQueries.getTemplateTokens (tokens ++ more)
       = NodeQueries.getTemplateTokens tokens
         ++ NodeQueries.getTemplateTokens more
    /\ (NodeQueries.hasTemplate part = true
        <-> NodeQueries.getTemplateTokens
              [ {| any_type := "AttributeKey";
                   any_templates := Some (part_templates part) |} ] <> []).
Proof.
  intros tokens more t part. unfold NodeQueries.getTemplateTokens.
  split; [|split].
  - rewrite filter_In, in_concat. split.
    + intros [(l & Hl & Hin) Ht]. split; [exact Ht|].
      apply in_map_iff in Hl. destruct Hl as (token & Heq & Htok).
      destruct (any_templates token) as [tpls|] eqn:E.
      * subst l. now exists token, tpls.
      * subst l. destruct Hin.
    + intros [Ht (token & tpls & Htok & E & Hin)]. split; [|exact Ht].
      exists tpls. split; [|exact Hin].
      apply in_map_iff. exists token. now rewrite E.
  - now rewrite map_app, concat_app, filter_app.
  - unfold NodeQueries.hasTemplate. cbn [map List.concat any_templates].
    rewrite app_nil_r, existsb_exists. split.
    + intros (x & Hin & Hx) Habs.
      assert (Hf : In x (filter isTemplate (part_templates part)))
        by (apply filter_In; now split).
      rewrite Habs in Hf. destruct Hf.
    + intro Hne. destruct (filter isTemplate (part_templates part))
        as [|x rest] eqn:E; [now destruct Hne|].
      assert (Hf : In x (filter isTemplate (part_templates part)))
        by (rewrite E; now left).
      apply filter_In in Hf. now exists x.
Qed.

(** ** Attributes *)

Lemma find_first :
  forall (A : Type) (f : A -> bool) (l : list A) (a : A),
    find f l = Some a
    <-> exists before after,
        l = before ++ a :: after /\ f a = true
        /\ Forall (fun b => f b = false) before.
Proof.
  intros A f l a. induction l as [|x l IH].
  - split; [discriminate|]. intros (before & after & H & _).
    now destruct before.
  - cbn [find]. destruct (f x) eqn:Ex.
    + split.
      * intro H. injection H as ->. exists [], l. now repeat split.
      * intros (before & after & H & Ha & Hb).
        destruct before as [|y before].
        -- cbn in H. now injection H as ->.
        -- cbn in H. injection H as -> _. inversion Hb; congruence.
    + rewrite IH. split.
      * intros (before & after & -> & Ha & Hb).
        exists (x :: before), after. repeat split; [exact Ha|].
        now constructor.
      * intros (before & after & H & Ha & Hb).
        destruct before as [|y before].
        -- cbn in H. injection H as -> _. congruence.
        -- cbn in H. injection H as _ ->. exists before, after.
           inversion Hb. now repeat split.
Qed.

(** X7.  [findAttr] returns the first attribute that has a key whose
    lower-cased value is the lower-cased [key]: attributes without a key
    and attributes with another name are passed over; it returns none
    exactly when no attribute has such a key. *)
Theorem findAttr_first_match :
  forall attrs key,
    let named attr :=
      match attr_key attr with
      | Some k => String.eqb (JS.toLowerCase (part_value k))
                             (JS.toLowerCase key)
      | None => false
      end in
    (forall a,
        NodeQueries.findAttr (Some attrs) key = Return (Some a)
        <-> exists before after k,
            attrs = before ++ a :: after
            /\ attr_key a = Some k
            /\ JS.toLowerCase (part_value k) = JS.toLowerCase key
            /\ Forall (fun b => named b = false) before)
    /\ (NodeQueries.findAttr (Some attrs) key = Return None
        <-> Forall (fun b => named b = false) attrs).
Proof.
  intros attrs key named. unfold NodeQueries.findAttr. fold named. split.
  - intro a. split.
    + intro H. injection H as H. apply find_first in H.
      destruct H as (before & after & -> & Ha & Hb).
      unfold named in Ha. destruct (attr_key a) as [k|] eqn:Ek;
        [|discriminate].
      apply String.eqb_eq in Ha. now exists before, after, k.
    + intros (before & after & k & -> & Ek & Hk & Hb). f_equal.
      apply find_first. exists before, after. repeat split; [|exact Hb].
      unfold named. rewrite Ek, Hk. apply String.eqb_refl.
  - split.
    + intro H. injection H as H. apply Forall_forall. intros b Hb.
      exact (find_none _ _ H b Hb).
    + intro H. f_equal. destruct (find named attrs) as [a|] eqn:E;
        [|reflexivity].
      apply find_some in E. destruct E as [Hin Ha].
      rewrite Forall_forall in H. rewrite (H a Hin) in Ha. discriminate.
Qed.

(** X8.  [findAttr] does not tell letter case apart in the key it is asked
    for: two keys that agree once lower-cased find the same attribute, and
    so does a key and its lower-cased form. *)
Theorem findAttr_ignores_case :
  forall attributes key key',
    JS.toLowerCase key = JS.toLowerCase key' ->
    NodeQueries.findAttr attributes key = NodeQueries.findAttr attributes key'
    /\ NodeQueries.findAttr attributes (JS.toLowerCase key)
       = NodeQueries.findAttr attributes key.
Proof.
  intros attributes key key' H. unfold NodeQueries.findAttr.
  rewrite toLowerCase_idempotent, H. now split.
Qed.

Lemma findAttr_ignores_case_witness :
  NodeQueries.findAttr
    (Some [ {| attr_key := Some {| part_value := "Class"; part_templates := [] |};
               attr_value := None |} ]) "CLASS"
  = NodeQueries.findAttr
      (Some [ {| attr_key := Some {| part_value := "Class"; part_templates := [] |};
                 attr_value := None |} ]) "class".
Proof.
  exact (proj1 (findAttr_ignores_case _ "CLASS" "class" eq_refl)).
Defined.

(** X9.  [findAttr] throws exactly when [node.attributes] is absent, a
    case in which [isAttributesEmpty] answers true without throwing; and
    when [isAttributesEmpty] answers true for attributes that are present,
    [findAttr] finds nothing, whatever the key. *)
Theorem isAttributesEmpty_findAttr :
  forall attributes key,
    (NodeQueries.findAttr attributes key = Throw "TypeError"
     <-> attributes = None)
    /\ (attributes = None -> NodeQueries.isAttributesEmpty attributes = true)
    /\ (forall attrs,
           attributes = Some attrs ->
           NodeQueries.isAttributesEmpty attributes = true ->
           NodeQueries.findAttr attributes key = Return None).
Proof.
  intros attributes key. split; [|split].
  - destruct attributes; cbn; split; congruence.
  - now intros ->.
  - intros attrs -> H. cbn in H. apply Z.leb_le in H.
    destruct attrs; [reflexivity | cbn in H; lia].
Qed.

(** ** Parents *)

(** X10.  [findParent] returns the nearest proper ancestor that satisfies
    the predicate, provided that neither the node nor any ancestor below
    the one returned is a TaggedTemplateExpression or a TemplateLiteral;
    in every other case (no such ancestor, or a template expression met on
    the way up) it returns none. *)
Theorem findParent_nearest :
  forall predicate node a,
    NodeQueries.findParent node predicate = Some a
    <-> NodeQueries.isTemplateExpression (linkedType node) = false
        /\ exists before after,
           ancestors node = before ++ a :: after
           /\ predicate a = true
           /\ Forall (fun b =>
                        predicate b = false
                        /\ NodeQueries.isTemplateExpression (linkedType b)
                           = false)
                     before.
Proof.
  intros predicate node a. revert node.
  fix IH 1. intros [ty nm [parent|]].
  - cbn [NodeQueries.findParent linkedType ancestors].
    destruct (NodeQueries.isTemplateExpression ty) eqn:Et.
    + split; [discriminate | now intros [? _]].
    + destruct (predicate parent) eqn:Ep.
      * split.
        -- intro H. injection H as ->. split; [reflexivity|].
           exists [], (ancestors a). now repeat split.
        -- intros [_ (before & after & H & Ha & Hb)].
           destruct before as [|x before].
           ++ cbn in H. now injection H as ->.
           ++ cbn in H. injection H as -> _. inversion Hb as [|? ? [Hx _] _].
              congruence.
      * rewrite (IH parent). split.
        -- intros [Hp (before & after & H & Ha & Hb)]. split; [reflexivity|].
           exists (parent :: before), after. rewrite H.
           repeat split; [exact Ha|]. constructor; [now split | exact Hb].
        -- intros [_ (before & after & H & Ha & Hb)].
           destruct before as [|x before].
           ++ cbn in H. injection H as -> _. congruence.
           ++ cbn in H. injection H as -> H. inversion Hb as [|? ? [_ Hx] Hb'].
              split; [exact Hx|]. now exists before, after.
  - cbn [NodeQueries.findParent linkedType ancestors]. split; [discriminate|].
    intros [_ (before & after & H & _)]. now destruct before.
Qed.

(** ** Patterns, again: the derivative tests decide [Matches] *)

Lemma string_app_nil_r : forall s : string, (s ++ "")%string = s.
Proof. induction s as [|c s IH]; [reflexivity | cbn; now rewrite IH]. Qed.

Lemma string_app_assoc :
  forall a b c : string, ((a ++ b) ++ c)%string = (a ++ b ++ c)%string.
Proof. induction a as [|x a IH]; intros; [reflexivity | cbn; now rewrite IH]. Qed.

Lemma string_app_eq_nil :
  forall a b : string, (a ++ b)%string = EmptyString ->
                       a = EmptyString /\ b = EmptyString.
Proof. intros [|x a] b H; [now split | discriminate]. Qed.

Lemma nullable_Matches :
  forall r, RegExp.nullable r = true <-> Matches r EmptyString.
Proof.
  intro r. split.
  - induction r; cbn [RegExp.nullable]; intro H; try discriminate.
    + constructor.
    + apply andb_true_iff in H. destruct H as [H1 H2].
      change EmptyString with (EmptyString ++ EmptyString)%string.
      constructor; auto.
    + apply orb_true_iff in H. destruct H as [H|H];
        [apply MatchAltL | apply MatchAltR]; auto.
    + constructor.
  - intro H. remember EmptyString as s eqn:Es.
    induction H; cbn [RegExp.nullable]; try discriminate; try reflexivity.
    + apply string_app_eq_nil in Es. destruct Es as [-> ->].
      now rewrite IHMatches1, IHMatches2.
    + now rewrite IHMatches.
    + rewrite IHMatches by assumption. apply orb_true_r.
Qed.

Lemma deriv_sound :
  forall r c s, Matches (RegExp.deriv c r) s -> Matches r (String c s).
Proof.
  induction r; intros c s H; cbn [RegExp.deriv] in H.
  - inversion H.
  - inversion H.
  - destruct (Ascii.eqb c a) eqn:E; [|inversion H].
    apply Ascii.eqb_eq in E. subst a. inversion H. constructor.
  - destruct (b c) eqn:E; [|inversion H]. inversion H. now constructor.
  - destruct (RegExp.nullable r1) eqn:En.
    + inversion H as [| | |? ? ? ? | ? ? ? Hl | ? ? ? Hr | |]; subst.
      * inversion Hl as [| | |? ? s1 s2 H1 H2| | | |]; subst.
        change (String c (s1 ++ s2)) with (String c s1 ++ s2)%string.
        constructor; auto.
      * change (String c s) with (EmptyString ++ String c s)%string.
        constructor; [now apply nullable_Matches | auto].
    + inversion H as [| | |? ? s1 s2 H1 H2| | | |]; subst.
      change (String c (s1 ++ s2)) with (String c s1 ++ s2)%string.
      constructor; auto.
  - inversion H; subst; [apply MatchAltL | apply MatchAltR]; auto.
  - inversion H as [| | |? ? s1 s2 H1 H2| | | |]; subst.
    change (String c (s1 ++ s2)) with (String c s1 ++ s2)%string.
    constructor; auto.
Qed.

Lemma deriv_complete :
  forall r s', Matches r s' ->
               forall c s, s' = String c s -> Matches (RegExp.deriv c r) s.
Proof.
  induction 1 as [|d|p d Hp|a b s1 s2 H1 IH1 H2 IH2|a b s0 H0 IH0
                  |a b s0 H0 IH0|a|a s1 s2 H1 IH1 H2 IH2];
    intros c s E; cbn [RegExp.deriv].
  - discriminate.
  - injection E as -> <-. rewrite Ascii.eqb_refl. constructor.
  - injection E as -> <-. rewrite Hp. constructor.
  - destruct s1 as [|x s1].
    + cbn in E. apply nullable_Matches in H1. rewrite H1.
      apply MatchAltR. now apply IH2.
    + cbn in E. injection E as -> <-.
      assert (Hc : Matches (RegExp.Cat (RegExp.deriv c a) b) (s1 ++ s2)%string)
        by (constructor; [now apply IH1 | exact H2]).
      destruct (RegExp.nullable a); [now apply MatchAltL | exact Hc].
  - apply MatchAltL. now apply IH0.
  - apply MatchAltR. now apply IH0.
  - discriminate.
  - destruct s1 as [|x s1].
    + cbn in E. now apply IH2.
    + cbn in E. injection E as -> <-. constructor; [now apply IH1 | exact H2].
Qed.

Lemma test_whole_Matches :
  forall s r, RegExp.test_whole r s = true <-> Matches r s.
Proof.
  induction s as [|c s IH]; intro r; cbn [RegExp.test_whole].
  - apply nullable_Matches.
  - rewrite IH. split; [apply deriv_sound|].
    intro H. now apply deriv_complete with (String c s).
Qed.

Lemma test_start_Matches :
  forall s r,
    RegExp.test_start r s = true
    <-> exists s1 s2, s = (s1 ++ s2)%string /\ Matches r s1.
Proof.
  induction s as [|c s IH]; intro r; cbn [RegExp.test_start].
  - rewrite orb_false_r, nullable_Matches. split.
    + intro H. now exists EmptyString, EmptyString.
    + intros (s1 & s2 & E & H). symmetry in E.
      apply string_app_eq_nil in E. now destruct E as [-> _].
  - rewrite orb_true_iff, nullable_Matches, IH. split.
    + intros [H|(s1 & s2 & -> & H)].
      * now exists EmptyString, (String c s).
      * exists (String c s1), s2. split; [reflexivity|]. now apply deriv_sound.
    + intros (s1 & s2 & E & H). destruct s1 as [|x s1]; [now left|].
      cbn in E. injection E as <- ->. right. exists s1, s2. split; [reflexivity|].
      now apply deriv_complete with (String c s1).
Qed.

Lemma test_Matches :
  forall s r,
    RegExp.test r s = true
    <-> exists s0 s1 s2, s = (s0 ++ s1 ++ s2)%string /\ Matches r s1.
Proof.
  induction s as [|c s IH]; intro r; cbn [RegExp.test].
  - rewrite orb_false_r, test_start_Matches. split.
    + intros (s1 & s2 & E & H). now exists EmptyString, s1, s2.
    + intros (s0 & s1 & s2 & E & H). symmetry in E.
      apply string_app_eq_nil in E. destruct E as [-> E]. now exists s1, s2.
  - rewrite orb_true_iff, test_start_Matches, IH. split.
    + intros [(s1 & s2 & E & H)|(s0 & s1 & s2 & -> & H)].
      * now exists EmptyString, s1, s2.
      * now exists (String c s0), s1, s2.
    + intros (s0 & s1 & s2 & E & H). destruct s0 as [|x s0].
      * left. now exists s1, s2.
      * cbn in E. injection E as <- ->. right. now exists s0, s1, s2.
Qed.

Lemma test_end_Matches :
  forall s r,
    RegExp.test_end r s = true
    <-> exists s0 s1, s = (s0 ++ s1)%string /\ Matches r s1.
Proof.
  induction s as [|c s IH]; intro r; cbn [RegExp.test_end].
  - rewrite orb_false_r, test_whole_Matches. split.
    + intro H. now exists EmptyString, EmptyString.
    + intros (s0 & s1 & E & H). symmetry in E.
      apply string_app_eq_nil in E. now destruct E as [_ ->].
  - rewrite orb_true_iff, test_whole_Matches, IH. split.
    + intros [H|(s0 & s1 & -> & H)].
      * now exists EmptyString, (String c s).
      * now exists (String c s0), s1.
    + intros (s0 & s1 & E & H). destruct s0 as [|x s0].
      * cbn in E. subst s1. now left.
      * cbn in E. injection E as <- ->. right. now exists s0, s1.
Qed.

(** ** The newline rule: what its tests on text mean *)

Lemma Matches_newline :
  forall s,
    Matches ElementNewline.newline s
    <-> s = String JS.LF EmptyString
        \/ s = String JS.CR (String JS.LF EmptyString).
Proof.
  intro s. unfold ElementNewline.newline. split.
  - intro H. inversion H as [| | | |? ? ? Hl|? ? ? Hr| |]; subst.
    + inversion Hl. now left.
    + inversion Hr as [| | |? ? s1 s2 H1 H2| | | |]; subst.
      inversion H1. inversion H2. now right.
  - intros [->| ->].
    + apply MatchAltL. constructor.
    + apply MatchAltR.
      change (String JS.CR (String JS.LF EmptyString))
        with (String JS.CR EmptyString ++ String JS.LF EmptyString)%string.
      constructor; constructor.
Qed.

Lemma Matches_spaces :
  forall s,
    Matches (RegExp.Star (RegExp.Class JS.isWhiteSpace)) s
    <-> allWhiteSpace s = true.
Proof.
  intro s. split.
  - intro H. remember (RegExp.Star (RegExp.Class JS.isWhiteSpace)) as r eqn:Er.
    induction H as [| | | | | | |a s1 s2 H1 _ H2 IH2]; try discriminate;
      [reflexivity|].
    injection Er as ->. inversion H1 as [| |? c Hc| | | | |]; subst.
    cbn [String.append allWhiteSpace]. rewrite Hc. now apply IH2.
  - induction s as [|c s IH]; intro H; [constructor|].
    cbn [allWhiteSpace] in H. apply andb_true_iff in H. destruct H as [Hc Hs].
    change (String c s) with (String c EmptyString ++ s)%string.
    constructor; [now constructor | now apply IH].
Qed.

Lemma holds_app :
  forall c a b, holds c (a ++ b)%string = holds c a || holds c b.
Proof.
  intros c a b. induction a as [|x a IH]; [reflexivity|].
  cbn [String.append holds]. now rewrite IH, orb_assoc.
Qed.

Lemma holds_split :
  forall c s, holds c s = true -> exists a b, s = (a ++ String c b)%string.
Proof.
  intros c s. induction s as [|x s IH]; [discriminate|].
  cbn [holds]. intro H. destruct (Ascii.eqb x c) eqn:E.
  - apply Ascii.eqb_eq in E. subst x. now exists EmptyString, s.
  - destruct (IH H) as (a & b & ->). now exists (String x a), b.
Qed.

Lemma test_lineBreaks :
  forall s,
    RegExp.test ElementNewline.lineBreaks s = holds JS.LF s || holds JS.CR s.
Proof.
  intro s. apply eq_true_iff_eq. rewrite test_Matches, orb_true_iff. split.
  - intros (s0 & s1 & s2 & -> & H). unfold ElementNewline.lineBreaks in H.
    inversion H as [| | |? ? t1 t2 H1 H2| | | |]; subst.
    rewrite !holds_app.
    inversion H1 as [| | | |? ? ? Hl|? ? ? Hr| |]; subst.
    + inversion Hl; subst. left. cbn [String.append holds].
      rewrite Ascii.eqb_refl. cbn [orb]. apply orb_true_r.
    + inversion Hr; subst. right. cbn [String.append holds].
      rewrite Ascii.eqb_refl. cbn [orb]. apply orb_true_r.
  - intros [H|H]; apply holds_split in H; destruct H as (a & b & ->).
    + exists a, (String JS.LF EmptyString), b. split; [reflexivity|].
      change (String JS.LF EmptyString)
        with (String JS.LF EmptyString ++ EmptyString)%string.
      constructor; [apply MatchAltL|]; constructor.
    + exists a, (String JS.CR EmptyString), b. split; [reflexivity|].
      change (String JS.CR EmptyString)
        with (String JS.CR EmptyString ++ EmptyString)%string.
      constructor; [apply MatchAltR|]; constructor.
Qed.

Lemma allWhiteSpace_forallb :
  forall s, allWhiteSpace s = forallb JS.isWhiteSpace (list_ascii_of_string s).
Proof. induction s as [|c s IH]; [reflexivity | cbn; now rewrite IH]. Qed.

Lemma allWhiteSpace_reverse :
  forall s, allWhiteSpace (JS.reverse s) = allWhiteSpace s.
Proof.
  intro s. unfold JS.reverse.
  rewrite !allWhiteSpace_forallb, list_ascii_of_string_of_list_ascii.
  apply eq_true_iff_eq. rewrite !forallb_forall. split; intros H x Hx;
    apply H; [apply -> in_rev | apply <- in_rev]; exact Hx.
Qed.

Lemma trimStart_empty :
  forall s, JS.trimStart s = EmptyString <-> allWhiteSpace s = true.
Proof.
  induction s as [|c s IH]; [now split|].
  cbn [JS.trimStart allWhiteSpace]. destruct (JS.isWhiteSpace c); cbn [andb].
  - exact IH.
  - split; discriminate.
Qed.

Lemma allWhiteSpace_trimStart :
  forall s, allWhiteSpace (JS.trimStart s) = allWhiteSpace s.
Proof.
  induction s as [|c s IH]; [reflexivity|].
  cbn [JS.trimStart]. destruct (JS.isWhiteSpace c) eqn:E.
  - cbn [allWhiteSpace]. now rewrite E, IH.
  - reflexivity.
Qed.

Lemma reverse_empty :
  forall s, JS.reverse s = EmptyString <-> s = EmptyString.
Proof.
  intro s. split; [|now intros ->].
  intro H. destruct s as [|c s]; [reflexivity|].
  unfold JS.reverse in H. cbn [list_ascii_of_string rev] in H.
  destruct (rev (list_ascii_of_string s) ++ [c]) as [|x l] eqn:E.
  - apply app_eq_nil in E. now destruct E.
  - discriminate.
Qed.

Lemma isEmptyText_spec :
  forall node,
    ElementNewline.isEmptyText node = true
    <-> exists c, node = Text c /\ allWhiteSpace (value c) = true.
Proof.
  intro node. destruct node as [t cs|c|c r l|r l|r l|r l];
    try (split; [discriminate | now intros (c' & Hc & _)]).
  cbn [ElementNewline.isEmptyText]. rewrite Z.eqb_eq.
  assert (E : JS.length (JS.trim (value c)) = 0
              <-> allWhiteSpace (value c) = true).
  { unfold JS.trim.
    rewrite <- (allWhiteSpace_trimStart (value c)),
            <- (allWhiteSpace_reverse (JS.trimStart (value c))),
            <- trimStart_empty, <- reverse_empty.
    unfold JS.length.
    destruct (JS.reverse
                (JS.trimStart (JS.reverse (JS.trimStart (value c)))));
      cbn [String.length]; split; intro H; try reflexivity; try discriminate;
      lia. }
  rewrite E. split.
  - intro H. now exists c.
  - intros (c' & Hc & H). now injection Hc as ->.
Qed.

Lemma content_entries :
  forall (f : Node -> ElementNewline.NodeMeta * list Report) siblings,
    filter (fun entry => negb (ElementNewline.isEmptyText (fst entry)))
           (map (fun c => (c, f c)) (ElementNewline.nodesWithContent siblings))
    = filter (fun entry => negb (ElementNewline.isEmptyText (fst entry)))
             (map (fun c => (c, f c)) siblings).
Proof.
  intros f siblings. unfold ElementNewline.nodesWithContent.
  induction siblings as [|c rest IH]; [reflexivity|].
  cbn [filter map fst].
  destruct (negb (ElementNewline.isEmptyText c)) eqn:E.
  - cbn [map filter fst]. now rewrite E, IH.
  - exact IH.
Qed.

(** X11.  The nodes the newline rule leaves out of a sibling group are the
    texts made of white space only, and leaving them out beforehand
    changes nothing: the group and the group without them get the same
    summary and the same diagnostics. *)
Theorem whitespace_text_ignored :
  forall options siblings,
    (forall node,
        ElementNewline.isEmptyText node = true
        <-> exists c, node = Text c /\ allWhiteSpace (value c) = true)
    /\ ElementNewline.checkSiblings options siblings
       = ElementNewline.checkSiblings
           options (ElementNewline.nodesWithContent siblings).
Proof.
  intros options siblings. split; [apply isEmptyText_spec|].
  unfold ElementNewline.checkSiblings, ElementNewline.checkSiblingsWith.
  now rewrite content_entries.
Qed.

(** X12.  Only a text can already start or end with a line break: the
    start test fails exactly for a text whose value begins with LF or with
    CR LF, the end test exactly for a text in whose value some LF is
    followed by nothing but white space. *)
Theorem newline_at_text_edges :
  forall node,
    (ElementNewline.isNotNewlineStart node = false
     <-> exists c rest,
         node = Text c
         /\ (value c = String JS.LF rest
             \/ value c = String JS.CR (String JS.LF rest)))
    /\ (ElementNewline.isNotNewlineEnd node = false
        <-> exists c before after,
            node = Text c
            /\ value c = (before ++ String JS.LF after)%string
            /\ allWhiteSpace after = true).
Proof.
  intro node. destruct node as [t cs|c|c r l|r l|r l|r l];
    try (split; (split; [discriminate|]);
         [now intros (c' & ? & Hc & _) | now intros (c' & ? & ? & Hc & _)]).
  cbn [ElementNewline.isNotNewlineStart ElementNewline.isNotNewlineEnd].
  rewrite !negb_false_iff, test_start_Matches, test_end_Matches. split.
  - split.
    + intros (s1 & s2 & E & H). apply Matches_newline in H.
      exists c, s2. split; [reflexivity|]. destruct H as [->| ->]; rewrite E;
        [now left | now right].
    + intros (c' & rest & Hc & H). injection Hc as <-.
      destruct H as [E|E]; rewrite E.
      * exists (String JS.LF EmptyString), rest. split; [reflexivity|].
        apply Matches_newline. now left.
      * exists (String JS.CR (String JS.LF EmptyString)), rest.
        split; [reflexivity|]. apply Matches_newline. now right.
  - split.
    + intros (s0 & s1 & E & H). unfold ElementNewline.newlineThenSpace in H.
      inversion H as [| | |? ? nl w Hnl Hw| | | |]; subst.
      apply Matches_newline in Hnl. apply Matches_spaces in Hw.
      destruct Hnl as [->| ->].
      * exists c, s0, w. now repeat split.
      * exists c, (s0 ++ String JS.CR EmptyString)%string, w.
        repeat split; [|exact Hw]. rewrite E, string_app_assoc. reflexivity.
    + intros (c' & before & after & Hc & E & Hw). injection Hc as <-.
      exists before, (String JS.LF after). split; [exact E|].
      unfold ElementNewline.newlineThenSpace.
      change (String JS.LF after)
        with (String JS.LF EmptyString ++ after)%string.
      constructor; [apply Matches_newline; now left | now apply Matches_spaces].
Qed.

(** X13.  A text or a comment wants a newline exactly when its trimmed
    value still holds a LF or a CR (line breaks among leading or trailing
    white space do not count); a doctype, a script tag and a style tag
    always want one. *)
Theorem wants_newline_by_kind :
  forall options c r l,
    ElementNewline.shouldBeNewline options (Text c)
    = holds JS.LF (JS.trim (value c)) || holds JS.CR (JS.trim (value c))
    /\ ElementNewline.shouldBeNewline options (Comment c r l)
       = holds JS.LF (JS.trim (value c)) || holds JS.CR (JS.trim (value c))
    /\ (allWhiteSpace (value c) = true ->
        ElementNewline.shouldBeNewline options (Text c) = false)
    /\ ElementNewline.shouldBeNewline options (Doctype r l) = true
    /\ ElementNewline.shouldBeNewline options (ScriptTag r l) = true
    /\ ElementNewline.shouldBeNewline options (StyleTag r l) = true.
Proof.
  intros options c r l. cbn [ElementNewline.shouldBeNewline].
  rewrite test_lineBreaks. repeat split.
  intro Hw.
  assert (E : JS.trim (value c) = EmptyString).
  { unfold JS.trim. apply reverse_empty, trimStart_empty.
    now rewrite allWhiteSpace_reverse, allWhiteSpace_trimStart. }
  now rewrite E.
Qed.

(** ** The newline rule: the summary of a sibling group *)

Section NewlineSummary.

Variable options : list ElementNewline.Options.

Local Abbreviation entries :=
  (list (Node * (ElementNewline.NodeMeta * list Report))).

(** Whether an entry makes its group want a newline: only a tag that is
    not skipped does, when it or its children want one. *)
Local Abbreviation wanting :=
  (fun entry : Node * (ElementNewline.NodeMeta * list Report) =>
     match fst entry with
     | Tag t _ =>
         negb (JS.includes (ElementNewline.skipTags options) (name t))
         && (ElementNewline.shouldBeNewline options (fst entry)
             || ElementNewline.meta_shouldBeNewline (fst (snd entry)))
     | _ => false
     end).

Lemma forEachNode_summary :
  forall (nodes : entries) meta,
    ElementNewline.childFirst
      (fst (ElementNewline.forEachNode options nodes meta))
    = match ElementNewline.childFirst meta with
      | Some first => Some first
      | None => hd_error (map fst nodes)
      end
    /\ ElementNewline.childLast
         (fst (ElementNewline.forEachNode options nodes meta))
       = match hd_error (rev (map fst nodes)) with
         | Some last => Some last
         | None => ElementNewline.childLast meta
         end
    /\ ElementNewline.meta_shouldBeNewline
         (fst (ElementNewline.forEachNode options nodes meta))
       = ElementNewline.meta_shouldBeNewline meta || existsb wanting nodes.
Proof.
  induction nodes as [|[node [nodeMeta inner]] rest IH]; intro meta.
  - cbn. destruct (ElementNewline.childFirst meta);
      now rewrite orb_false_r.
  - assert (Hlast : forall fallback,
               match hd_error (rev (map fst rest) ++ [node]) with
               | Some last => Some last
               | None => fallback
               end
               = match hd_error (rev (map fst rest)) with
                 | Some last => Some last
                 | None => Some node
                 end).
    { intro fallback. now destruct (rev (map fst rest)). }
    cbn [ElementNewline.forEachNode map rev fst existsb snd].
    rewrite Hlast.
    destruct node as [t cs|c|c r l|r l|r l|r l];
      [destruct (negb (JS.includes (ElementNewline.skipTags options) (name t)))
      | | | | |];
      match goal with
      | |- context [ElementNewline.forEachNode options rest ?m] =>
          specialize (IH m);
          destruct (ElementNewline.forEachNode options rest m) as [metaN outN]
      end;
      cbn [fst snd ElementNewline.childFirst ElementNewline.childLast
               ElementNewline.meta_shouldBeNewline andb orb] in *;
      destruct IH as (IH1 & IH2 & IH3); rewrite IH1, IH2, IH3.
    all: split; [now destruct (ElementNewline.childFirst meta)|].
    all: split; [reflexivity|].
    all: try reflexivity.
    destruct (ElementNewline.shouldBeNewline options (Tag t cs)
              || ElementNewline.meta_shouldBeNewline nodeMeta);
      cbn [orb]; [now rewrite orb_true_r | reflexivity].
Qed.

End NewlineSummary.

Lemma existsb_wanting_content :
  forall options (f : Node -> ElementNewline.NodeMeta * list Report) siblings,
    existsb
      (fun entry : Node * (ElementNewline.NodeMeta * list Report) =>
         match fst entry with
         | Tag t _ =>
             negb (JS.includes (ElementNewline.skipTags options) (name t))
             && (ElementNewline.shouldBeNewline options (fst entry)
                 || ElementNewline.meta_shouldBeNewline (fst (snd entry)))
         | _ => false
         end)
      (filter (fun entry => negb (ElementNewline.isEmptyText (fst entry)))
              (map (fun c => (c, f c)) siblings))
    = existsb
        (fun n =>
           match n with
           | Tag t _ =>
               negb (JS.includes (ElementNewline.skipTags options) (name t))
               && (ElementNewline.shouldBeNewline options n
                   || ElementNewline.meta_shouldBeNewline (fst (f n)))
           | _ => false
           end)
        siblings.
Proof.
  intros options f siblings. induction siblings as [|c rest IH]; [reflexivity|].
  cbn [map filter fst existsb].
  destruct (negb (ElementNewline.isEmptyText c)) eqn:E.
  - cbn [existsb fst snd]. now rewrite IH.
  - rewrite IH. destruct c; try reflexivity; discriminate.
Qed.

(** X14.  The summary of a sibling group names as first and last child the
    first and the last node with content of the group (none for a group
    without content). *)
Theorem summary_first_last :
  forall options siblings,
    ElementNewline.childFirst
      (fst (ElementNewline.checkSiblings options siblings))
    = hd_error (ElementNewline.nodesWithContent siblings)
    /\ ElementNewline.childLast
         (fst (ElementNewline.checkSiblings options siblings))
       = hd_error (rev (ElementNewline.nodesWithContent siblings)).
Proof.
  intros options siblings.
  unfold ElementNewline.checkSiblings, ElementNewline.checkSiblingsWith.
  destruct (forEachNode_summary
              options
              (filter (fun entry => negb (ElementNewline.isEmptyText (fst entry)))
                      (map (fun c => (c, ElementNewline.checkChildren options c))
                           siblings))
              ElementNewline.emptyMeta) as (H1 & H2 & _).
  rewrite H1, H2, tabulated_nodes. cbn [ElementNewline.emptyMeta
    ElementNewline.childFirst ElementNewline.childLast].
  split; [reflexivity|].
  now destruct (hd_error (rev (ElementNewline.nodesWithContent siblings))).
Qed.

(** X15.  A sibling group wants a newline exactly when it holds a tag that
    is not skipped and that wants a newline itself or whose children do.
    Texts, comments and the other nodes never make their group want one,
    nor does a skipped tag. *)
Theorem summary_wants_newline :
  forall options siblings,
    ElementNewline.meta_shouldBeNewline
      (fst (ElementNewline.checkSiblings options siblings)) = true
    <-> exists t cs,
        In (Tag t cs) siblings
        /\ JS.includes (ElementNewline.skipTags options) (name t) = false
        /\ (ElementNewline.shouldBeNewline options (Tag t cs) = true
            \/ ElementNewline.meta_shouldBeNewline
                 (fst (ElementNewline.checkSiblings options cs)) = true).
Proof.
  intros options siblings.
  unfold ElementNewline.checkSiblings at 1.
  unfold ElementNewline.checkSiblingsWith.
  destruct (forEachNode_summary
              options
              (filter (fun entry => negb (ElementNewline.isEmptyText (fst entry)))
                      (map (fun c => (c, ElementNewline.checkChildren options c))
                           siblings))
              ElementNewline.emptyMeta) as (_ & _ & H3).
  rewrite H3, existsb_wanting_content. cbn [ElementNewline.emptyMeta
    ElementNewline.meta_shouldBeNewline orb].
  rewrite existsb_exists. split.
  - intros (n & Hin & Hn). destruct n as [t cs| | | | |]; try discriminate.
    apply andb_true_iff in Hn. destruct Hn as [Hs Hw].
    apply negb_true_iff in Hs. apply orb_true_iff in Hw.
    exists t, cs. now repeat split.
  - intros (t & cs & Hin & Hs & Hw). exists (Tag t cs). split; [exact Hin|].
    rewrite Hs. cbn [negb andb]. apply orb_true_iff. exact Hw.
Qed.

Lemma forEachNode_Forall :
  forall options (Q : Report -> Prop),
    (forall node t b m, Forall Q (ElementNewline.openCloseReports node t b m)) ->
    (forall node next, Forall Q (ElementNewline.pairReports options node next)) ->
    forall nodes meta,
      Forall (fun entry : Node * (ElementNewline.NodeMeta * list Report) =>
                Forall Q (snd (snd entry))) nodes ->
      Forall Q (snd (ElementNewline.forEachNode options nodes meta)).
Proof.
  intros options Q Hoc Hpair.
  induction nodes as [|[node [m inner]] rest IH]; intros meta Hall.
  - constructor.
  - destruct (forEachNode_cons options node m inner rest meta) as [meta2 ->].
    inversion Hall as [|? ? Hinner Hrest]; subst. cbn [snd] in Hinner.
    apply Forall_app. split; [|apply Forall_app; split].
    + destruct node; try constructor.
      destruct (negb _); [|constructor].
      apply Forall_app. split; [exact Hinner | apply Hoc].
    + destruct rest as [|[next x] rest']; [constructor | apply Hpair].
    + now apply IH.
Qed.

(** X16.  Every diagnostic of the newline rule comes with a fix, the fix
    never throws, and it is always one insertion of one line break:
    the rule never removes or replaces text. *)
Theorem newline_fixes_insert_line_break :
  forall options doc,
    Forall insertsLineBreak (ElementNewline.run options doc).
Proof.
  intros options doc.
  assert (Hoc : forall node t b m,
             Forall insertsLineBreak
                    (ElementNewline.openCloseReports node t b m)).
  { intros node t b m. unfold ElementNewline.openCloseReports.
    destruct (b && ElementNewline.meta_shouldBeNewline m); [|constructor].
    destruct (ElementNewline.childFirst m) as [first|]; [|constructor].
    destruct (ElementNewline.childLast m) as [last|]; [|constructor].
    apply Forall_app. split.
    - destruct (_ =? _); [|constructor].
      destruct (ElementNewline.isNotNewlineStart first); [|constructor].
      constructor; [|constructor]. eexists. right. reflexivity.
    - destruct (close t) as [closeTag|]; [|constructor].
      destruct (_ =? _); [|constructor].
      destruct (ElementNewline.isNotNewlineEnd last); [|constructor].
      constructor; [|constructor]. eexists. left. reflexivity. }
  assert (Hpair : forall node next,
             Forall insertsLineBreak
                    (ElementNewline.pairReports options node next)).
  { intros node next. unfold ElementNewline.pairReports.
    destruct (_ =? _); [|constructor].
    destruct (ElementNewline.shouldBeNewline options node).
    - destruct (ElementNewline.isNotNewlineStart next); [|constructor].
      constructor; [|constructor]. eexists. right. reflexivity.
    - destruct (ElementNewline.shouldBeNewline options next); [|constructor].
      destruct (ElementNewline.isNotNewlineEnd node); [|constructor].
      constructor; [|constructor]. eexists. left. reflexivity. }
  assert (Hnode : forall n,
             Forall insertsLineBreak
                    (snd (ElementNewline.checkChildren options n))).
  { apply Node_induction.
    - intros t cs Hcs. cbn [ElementNewline.checkChildren].
      unfold ElementNewline.checkSiblingsWith.
      apply forEachNode_Forall; [exact Hoc | exact Hpair|].
      apply Forall_forall. intros entry Hin. apply filter_In in Hin.
      destruct Hin as [Hin _]. apply in_map_iff in Hin.
      destruct Hin as (c & <- & Hc). cbn [snd].
      rewrite Forall_forall in Hcs. now apply Hcs.
    - intros n Hleaf. destruct n; try constructor. now destruct (Hleaf t l). }
  unfold ElementNewline.run, ElementNewline.checkSiblings,
    ElementNewline.checkSiblingsWith.
  apply forEachNode_Forall; [exact Hoc | exact Hpair|].
  apply Forall_forall. intros entry Hin. apply filter_In in Hin.
  destruct Hin as [Hin _]. apply in_map_iff in Hin.
  destruct Hin as (c & <- & Hc). cbn [snd]. apply Hnode.
Qed.



(** ** The closing-tag rule, again *)

Section StatelessWalk.

Variables (VOID : list string) (options : list RequireClosingTags.Options).

Local Abbreviation V := (RequireClosingTags.visitor VOID options).

Lemma stateless_children :
  forall l,
    Forall (fun n =>
              forall p s,
                foreignOnly (RequireClosingTags.foreignContext s) ->
                RequireClosingTags.reports (fst (traverse V p n s))
                = RequireClosingTags.reports s
                  ++ diagnoseNode VOID options
                                  (RequireClosingTags.foreignContext s) n) l ->
    forall p i s,
      foreignOnly (RequireClosingTags.foreignContext s) ->
      RequireClosingTags.reports (fst (traverseChildren V p l i s))
      = RequireClosingTags.reports s
        ++ flat_map (diagnoseNode VOID options
                                  (RequireClosingTags.foreignContext s)) l.
Proof.
  induction 1 as [|c rest Hc Hrest IH]; intros p i s Hinv.
  - cbn. now rewrite app_nil_r.
  - rewrite traverseChildren_cons. cbn [fst flat_map].
    destruct (walked_all VOID options c (p ++ [i]) s Hinv) as (Hstack & _).
    rewrite IH by now rewrite Hstack.
    rewrite Hc by exact Hinv. now rewrite Hstack, app_assoc.
Qed.

Lemma stateless_node :
  forall n p s,
    foreignOnly (RequireClosingTags.foreignContext s) ->
    RequireClosingTags.reports (fst (traverse V p n s))
    = RequireClosingTags.reports s
      ++ diagnoseNode VOID options (RequireClosingTags.foreignContext s) n.
Proof.
  intro n. pattern n. apply Node_induction; clear n.
  - intros t cs Hcs p s Hinv. rewrite traverse_Tag. cbn [fst].
    change (onTag V p t cs s)
      with (RequireClosingTags.Tag_enter VOID options t cs s).
    change (onTagExit V p t cs ?x) with (RequireClosingTags.Tag_exit t x).
    rewrite Tag_exit_reports.
    set (s1 := RequireClosingTags.Tag_enter VOID options t cs s).
    assert (Hinv1 : foreignOnly (RequireClosingTags.foreignContext s1)).
    { unfold s1. rewrite Tag_enter_stack. apply Forall_app. split; [exact Hinv|].
      destruct (isForeignName (name t)) eqn:Ef; repeat constructor. exact Ef. }
    rewrite (stateless_children cs Hcs p 0%nat s1 Hinv1).
    cbn [diagnoseNode]. unfold s1 at 1 2.
    cbn [RequireClosingTags.Tag_enter RequireClosingTags.reports
         RequireClosingTags.foreignContext].
    now rewrite <- app_assoc.
  - intros n Hleaf p s Hinv. rewrite (traverse_leaf V p n s Hleaf).
    destruct n; try (cbn; now rewrite app_nil_r). now destruct (Hleaf t l).
Qed.

End StatelessWalk.

(** X18.  The diagnostics of a whole walk of the closing-tag rule are those
    of a rule without state that hands the names of the enclosing svg and
    math tags down to the children: every tag is checked once, in document
    order, against the foreign names of its proper ancestors, and what the
    rule pushes on entering a tag is gone when the next sibling is checked. *)
Theorem closing_tag_walk_is_stateless :
  forall VOID options doc,
    RequireClosingTags.reports (fst (RequireClosingTags.run VOID options doc))
    = diagnose VOID options doc.
Proof.
  intros VOID options doc.
  unfold RequireClosingTags.run, traverseDocument, diagnose.
  rewrite (stateless_children VOID options doc); [reflexivity| |constructor].
  apply Forall_forall. intros n _ p s. apply stateless_node.
Qed.

(** X19.  A tag that cannot self-close (not void, outside svg and math, and
    not an allowed childless custom element), written without [/>] and
    without a closing tag, gets exactly the diagnostic MISSING, anchored at
    the tag and without a fix, whatever selfClosing says; the second
    listing does the same for a tag that is not void. *)
Theorem missing_closing_tag :
  forall VOID options options' node children,
    RequireClosingTags.canSelfClose VOID options node children [] = false ->
    selfClosing node = false ->
    String.eqb (token_value (openEnd node)) "/>" = false ->
    close node = None ->
    RequireClosingTags.checkTag VOID options node children []
    = [ {| report_range := tag_range node;
           report_loc := tag_loc node;
           report_tag := name node;
           messageId := RequireClosingTags.MISSING;
           report_fix := None |} ]
    /\ RequireClosingTagsHyphen.checkTag VOID options' node
       = RequireClosingTags.checkTag VOID options node children [].
Proof.
  intros VOID options options' node children Hcan Hself Hopen Hclose.
  assert (Hvoid : JS.includes VOID (name node) = false).
  { unfold RequireClosingTags.canSelfClose in Hcan.
    apply orb_false_iff in Hcan. destruct Hcan as [Hcan _].
    apply orb_false_iff in Hcan. now destruct Hcan. }
  unfold RequireClosingTags.checkTag, RequireClosingTagsHyphen.checkTag.
  rewrite Hcan, Hself, Hopen, Hvoid. cbn [orb andb negb].
  unfold RequireClosingTags.checkClosingTag,
    RequireClosingTagsHyphen.checkClosingTag.
  now rewrite Hclose.
Qed.

Lemma missing_closing_tag_witness :
  RequireClosingTags.checkTag Samples.VOID_ELEMENTS [Samples.optAlwaysCustom]
                              MoreSamples.foo [] []
  = [ {| report_range := (0, 5);
         report_loc := Samples.at_ 1 0 5;
         report_tag := "foo";
         messageId := RequireClosingTags.MISSING;
         report_fix := None |} ].
Proof.
  exact (proj1 (missing_closing_tag
                  Samples.VOID_ELEMENTS [Samples.optAlwaysCustom]
                  [Samples.optHyphen] MoreSamples.foo []
                  eq_refl eq_refl eq_refl eq_refl)).
Defined.

(** X20.  Inside svg or math (a non-empty foreign context) the rule never
    reports MISSING; under selfClosing "never" (or without options) a tag
    not written with [/>] gets no diagnostic there at all, closing tag or
    not. *)
Theorem no_missing_in_foreign_context :
  forall VOID options node children stack,
    stack <> [] ->
    (forall r,
        In r (RequireClosingTags.checkTag VOID options node children stack) ->
        messageId r <> RequireClosingTags.MISSING)
    /\ (RequireClosingTags.preferSelfClose options = false ->
        String.eqb (token_value (openEnd node)) "/>" = false ->
        RequireClosingTags.checkTag VOID options node children stack = []).
Proof.
  intros VOID options node children stack Hstack.
  assert (Hcan : RequireClosingTags.canSelfClose VOID options node children
                                                 stack = true).
  { unfold RequireClosingTags.canSelfClose.
    destruct stack; [now destruct Hstack|].
    cbn [List.length]. rewrite Nat2Z.inj_succ.
    replace (0 <? Z.succ (Z.of_nat (List.length stack))) with true
      by (symmetry; apply Z.ltb_lt; lia).
    now rewrite orb_true_r. }
  unfold RequireClosingTags.checkTag. rewrite Hcan, orb_true_r. split.
  - intros r Hin. now apply checkVoidElement_not_missing in Hin.
  - intros Hprefer Hopen. unfold RequireClosingTags.checkVoidElement.
    now rewrite Hprefer, Hopen.
Qed.

Lemma no_missing_in_foreign_context_witness :
  RequireClosingTags.checkTag Samples.VOID_ELEMENTS [Samples.optNever]
                              MoreSamples.foo [] ["svg"%string] = [].
Proof.
  exact (proj2 (no_missing_in_foreign_context
                  Samples.VOID_ELEMENTS [Samples.optNever] MoreSamples.foo []
                  ["svg"%string] ltac:(discriminate))
               eq_refl eq_refl).
Defined.

(** X21.  A tag written with [/>] that cannot self-close is reported
    UNEXPECTED whatever selfClosing says, "always" included, and the fix
    callback returns null: the diagnostic is not fixable. *)
Theorem unexpected_not_fixable :
  forall VOID options node children,
    RequireClosingTags.canSelfClose VOID options node children [] = false ->
    selfClosing node = true ->
    token_value (openEnd node) = "/>"%string ->
    RequireClosingTags.checkTag VOID options node children []
    = [ {| report_range := token_range (openEnd node);
           report_loc := token_loc (openEnd node);
           report_tag := name node;
           messageId := RequireClosingTags.UNEXPECTED;
           report_fix := Some (Return None) |} ].
Proof.
  intros VOID options node children Hcan Hself Hopen.
  unfold RequireClosingTags.checkTag. rewrite Hcan, Hself, andb_false_r.
  cbn [orb]. unfold RequireClosingTags.checkVoidElement. now rewrite Hopen.
Qed.

Lemma unexpected_not_fixable_witness :
  RequireClosingTags.checkTag Samples.VOID_ELEMENTS [Samples.optAlwaysCustom]
                              MoreSamples.divSelfClosed [] []
  = [ {| report_range := (4, 6);
         report_loc := Samples.at_ 1 4 6;
         report_tag := "div";
         messageId := RequireClosingTags.UNEXPECTED;
         report_fix := Some (Return None) |} ].
Proof.
  exact (unexpected_not_fixable
           Samples.VOID_ELEMENTS [Samples.optAlwaysCustom]
           MoreSamples.divSelfClosed [] eq_refl eq_refl eq_refl).
Defined.

(** X22.  Outside svg and math and with allowSelfClosingCustom off, the
    two listings of the rule report the same diagnostics at the same
    places for every tag; the reports differ at most in the fix of
    MISSING_SELF, so under selfClosing "never" they are equal. *)
Theorem listings_agree :
  forall VOID options options' node children,
    RequireClosingTags.allowSelfClosingCustom options = false ->
    RequireClosingTagsHyphen.allowSelfClosingCustom options' = false ->
    RequireClosingTags.preferSelfClose options
    = RequireClosingTagsHyphen.preferSelfClose options' ->
    map (fun r => (messageId r, report_range r, report_loc r, report_tag r))
        (RequireClosingTags.checkTag VOID options node children [])
    = map (fun r => (messageId r, report_range r, report_loc r, report_tag r))
          (RequireClosingTagsHyphen.checkTag VOID options' node)
    /\ (RequireClosingTags.preferSelfClose options = false ->
        RequireClosingTags.checkTag VOID options node children []
        = RequireClosingTagsHyphen.checkTag VOID options' node).
Proof.
  intros VOID options options' node children Hallow Hallow' Hprefer.
  unfold RequireClosingTags.checkTag, RequireClosingTagsHyphen.checkTag,
    RequireClosingTags.canSelfClose, RequireClosingTags.isVoidElement.
  rewrite Hallow, Hallow', <- Hprefer.
  cbn [List.length Z.of_nat Z.ltb Z.compare].
  rewrite !andb_false_r, !orb_false_r. cbn [andb].
  unfold RequireClosingTags.checkVoidElement,
    RequireClosingTagsHyphen.checkVoidElement,
    RequireClosingTags.checkClosingTag,
    RequireClosingTagsHyphen.checkClosingTag.
  split.
  - destruct (selfClosing node), (JS.includes VOID (name node)),
      (RequireClosingTags.preferSelfClose options),
      (String.eqb (token_value (openEnd node)) "/>"), (close node);
      reflexivity.
  - intros ->.
    destruct (selfClosing node), (JS.includes VOID (name node)),
      (String.eqb (token_value (openEnd node)) "/>"), (close node);
      reflexivity.
Qed.

Lemma listings_agree_witness :
  RequireClosingTags.checkTag Samples.VOID_ELEMENTS [Samples.optNever]
                              Samples.imgSelfClosed [] []
  = RequireClosingTagsHyphen.checkTag Samples.VOID_ELEMENTS
                                      [MoreSamples.optHyphenNever]
                                      Samples.imgSelfClosed.
Proof.
  exact (proj2 (listings_agree
                  Samples.VOID_ELEMENTS [Samples.optNever]
                  [MoreSamples.optHyphenNever] Samples.imgSelfClosed []
                  eq_refl eq_refl eq_refl)
               eq_refl).
Defined.
